(** * Cosmic Flow: the sensor-to-effect pipeline

    A shallow embedding of the numeric core of the application:
    - [MotionController.predictWebcam]   (velocity estimator),
    - the smoothing and statistics effects of [App],
    - [AudioEngine] ([services/audioService.ts]),
    - the particle generator of [GalaxyScene].

    JavaScript numbers are modelled by [number]: finite values are real
    numbers and arithmetic on them is exact (binary64 rounding, overflow and
    the sign of zero are abstracted away), while the three special values
    that the code can produce, [Infinity], [-Infinity] and [NaN], are kept
    with their IEEE-754 behaviour.  The session statistics are given a
    second time in binary64 ([Binary64]), where every operation rounds as
    in the JavaScript engine, to evaluate them on given values. *)

From Stdlib Require Import Reals Lra Lia List Bool Arith.
From Stdlib Require String.
From Stdlib Require PrimFloat.
From Stdlib Require Import Permutation.
Import ListNotations.

Local Open Scope R_scope.

(** ** JavaScript numbers *)

Module Num.

Inductive number : Type :=
| Fin (r : R)
| PosInf
| NegInf
| NaN.

Definition Rltb (a b : R) : bool := if Rlt_dec a b then true else false.

Definition Rzerob (a : R) : bool := if Req_dec_T a 0 then true else false.

Definition infinity (positive : bool) : number :=
  if positive then PosInf else NegInf.

(** Unary minus. *)
Definition neg (a : number) : number :=
  match a with
  | Fin r => Fin (- r)
  | PosInf => NegInf
  | NegInf => PosInf
  | NaN => NaN
  end.

(** [a + b] *)
Definition add (a b : number) : number :=
  match a, b with
  | Fin r, Fin s => Fin (r + s)
  | NaN, _ | _, NaN => NaN
  | PosInf, NegInf | NegInf, PosInf => NaN
  | PosInf, _ | _, PosInf => PosInf
  | NegInf, _ | _, NegInf => NegInf
  end.

(** [a - b] *)
Definition sub (a b : number) : number := add a (neg b).

(** [a * b]; zero times an infinity is [NaN]. *)
Definition mul (a b : number) : number :=
  match a, b with
  | Fin r, Fin s => Fin (r * s)
  | NaN, _ | _, NaN => NaN
  | Fin r, PosInf | PosInf, Fin r =>
      if Rzerob r then NaN else infinity (Rltb 0 r)
  | Fin r, NegInf | NegInf, Fin r =>
      if Rzerob r then NaN else infinity (Rltb r 0)
  | PosInf, PosInf | NegInf, NegInf => PosInf
  | PosInf, NegInf | NegInf, PosInf => NegInf
  end.

(** [a / b]; a zero divisor is read as [+0], so that a non-zero dividend
    gives an infinity of its own sign and [0 / 0] is [NaN]. *)
Definition div (a b : number) : number :=
  match a, b with
  | NaN, _ | _, NaN => NaN
  | Fin r, Fin s =>
      if Rzerob s
      then (if Rzerob r then NaN else infinity (Rltb 0 r))
      else Fin (r / s)
  | Fin _, (PosInf | NegInf) => Fin 0
  | (PosInf | NegInf), (PosInf | NegInf) => NaN
  | PosInf, Fin s => infinity (negb (Rltb s 0))
  | NegInf, Fin s => infinity (Rltb s 0)
  end.

(** [Math.sqrt] *)
Definition sqrt (a : number) : number :=
  match a with
  | Fin r => if Rltb r 0 then NaN else Fin (R_sqrt.sqrt r)
  | PosInf => PosInf
  | NegInf | NaN => NaN
  end.

(** [Math.min] of two arguments: [NaN] as soon as one of them is. *)
Definition min (a b : number) : number :=
  match a, b with
  | NaN, _ | _, NaN => NaN
  | NegInf, _ | _, NegInf => NegInf
  | PosInf, c | c, PosInf => c
  | Fin r, Fin s => Fin (Rmin r s)
  end.

(** [a > b]; every comparison with [NaN] is false. *)
Definition gt (a b : number) : bool :=
  match a, b with
  | NaN, _ | _, NaN => false
  | Fin r, Fin s => Rltb s r
  | PosInf, (Fin _ | NegInf) => true
  | Fin _, NegInf => true
  | _, _ => false
  end.

(** [a < b] *)
Definition lt (a b : number) : bool := gt b a.

(** [a <= b] *)
Definition le (a b : number) : bool :=
  match a, b with
  | NaN, _ | _, NaN => false
  | Fin r, Fin s => negb (Rltb s r)
  | NegInf, _ | _, PosInf => true
  | _, _ => false
  end.

(** [Math.pow a n] for a natural exponent [n]. *)
Fixpoint pow (a : number) (n : nat) : number :=
  match n with
  | O => Fin 1
  | S m => mul a (pow a m)
  end.

(** [Math.cos] and [Math.sin] *)
Definition cos (a : number) : number :=
  match a with Fin r => Fin (Rtrigo_def.cos r) | _ => NaN end.

Definition sin (a : number) : number :=
  match a with Fin r => Fin (Rtrigo_def.sin r) | _ => NaN end.

(** [Math.abs] *)
Definition abs (a : number) : number :=
  match a with
  | Fin r => Fin (Rabs r)
  | PosInf | NegInf => PosInf
  | NaN => NaN
  end.

End Num.

Import Num.

Declare Scope js_scope.
Delimit Scope js_scope with js.
Bind Scope js_scope with number.
Infix "+" := add : js_scope.
Infix "-" := sub : js_scope.
Infix "*" := mul : js_scope.
Infix "/" := div : js_scope.

(** Exceptions: [Throw] is a JavaScript exception propagating out of the
    call; in every function below it is raised before the first assignment,
    so the state of the caller is the one from before the call. *)
Inductive result (A : Type) : Type :=
| Ok (a : A)
| Throw.
Arguments Ok {A} a.
Arguments Throw {A}.

(** ** MotionController: the velocity estimator *)

Module MotionController.

(** One landmark of the detector's result. *)
Record Landmark : Type := { lx : number; ly : number; lz : number }.

(** [lastHandPos.current], when it is not [null]. *)
Record HandPos : Type := { x : number; y : number; time : number }.

(** What one call did: the argument of [onVelocityChange] when it was
    called, and the new value of [lastHandPos.current]. *)
Record Frame : Type := {
  onVelocityChange : option number;
  lastHandPos : option HandPos
}.

(** The velocity of lines 215-225, from the previous sample [last], the
    wrist landmark and the current time. *)
Definition velocityOf (last : HandPos) (wrist : Landmark) (currentTime : number)
  : number :=
  let dx := (lx wrist - x last)%js in
  let dy := (ly wrist - y last)%js in
  let distance := Num.sqrt (dx * dx + dy * dy)%js in
  let dt := ((currentTime - time last) / Fin 1000)%js in
  let velocity := (distance / dt)%js in
  Num.min (velocity * Fin 2)%js (Fin 1.5).

(** [predictWebcam] from the detector's result onward (lines 206-235).
    [landmarks] is [result.landmarks] ([None] when it is undefined) and
    [currentTime] the value of [performance.now()] read at line 211.  A first
    hand without landmarks makes [wrist] undefined, and reading [wrist.x]
    throws.  The request for the next animation frame, which ends the
    function, is left out. *)
Definition predictWebcam (landmarks : option (list (list Landmark)))
    (currentTime : number) (last : option HandPos) : result Frame :=
  match landmarks with
  | Some (hand :: _) =>
      match hand with
      | wrist :: _ =>
          Ok {| onVelocityChange :=
                  match last with
                  | Some l => Some (velocityOf l wrist currentTime)
                  | None => None
                  end;
                lastHandPos :=
                  Some {| x := lx wrist; y := ly wrist; time := currentTime |} |}
      | [] => Throw
      end
  | Some [] | None =>
      Ok {| onVelocityChange := Some (Fin 0); lastHandPos := None |}
  end.

(** Finite samples, landmarks and one-hand results, to state properties. *)
Definition sample (a b t : R) : HandPos :=
  {| x := Fin a; y := Fin b; time := Fin t |}.

Definition landmark (a b c : R) : Landmark :=
  {| lx := Fin a; ly := Fin b; lz := Fin c |}.

Definition oneHand (a b : R) : option (list (list Landmark)) :=
  Some [[landmark a b 0]].

(** The distance of the specification between two wrist positions. *)
Definition euclideanDistance (x1 y1 x2 y2 : R) : R :=
  R_sqrt.sqrt ((x2 - x1) * (x2 - x1) + (y2 - y1) * (y2 - y1)).

(** The specification's reading of a sample that is not later than the
    previous one: the call emits nothing and keeps the previous sample. *)
Definition stale_sample_is_ignored : Prop :=
  forall x1 y1 t1 x2 y2 t2,
    t2 <= t1 ->
    predictWebcam (oneHand x2 y2) (Fin t2) (Some (sample x1 y1 t1))
    = Ok {| onVelocityChange := None; lastHandPos := Some (sample x1 y1 t1) |}.

End MotionController.

(** ** App: smoothing, session statistics *)

Module App.

Inductive AppState : Type := INTRO | PERMISSIONS | ACTIVE | ANALYZING | INSIGHT.

Definition AppState_eqb (a b : AppState) : bool :=
  match a, b with
  | INTRO, INTRO | PERMISSIONS, PERMISSIONS | ACTIVE, ACTIVE
  | ANALYZING, ANALYZING | INSIGHT, INSIGHT => true
  | _, _ => false
  end.

(** The updater passed to [setSmoothedVelocity] on every animation frame
    (lines 89-92). *)
Definition smooth (velocity prev : number) : number :=
  let diff := (velocity - prev)%js in
  (prev + diff * Fin 0.1)%js.

(** [n] animation frames with the same [velocity]. *)
Fixpoint smoothLoop (n : nat) (velocity prev : number) : number :=
  match n with
  | O => prev
  | S m => smoothLoop m velocity (smooth velocity prev)
  end.

(** [sessionStats.current] *)
Record SessionStats : Type := {
  totalVelocity : number;
  peakVelocity : number;
  samples : nat;
  startTime : number
}.

(** The statistics update of lines 105-111. *)
Definition updateStats (smoothedVelocity : number) (s : SessionStats)
  : SessionStats :=
  if gt smoothedVelocity (Fin 0.05) then
    let total := (totalVelocity s + smoothedVelocity)%js in
    let count := S (samples s) in
    {| totalVelocity := total;
       peakVelocity :=
         if gt smoothedVelocity (peakVelocity s)
         then smoothedVelocity else peakVelocity s;
       samples := count;
       startTime := startTime s |}
  else s.

(** The statistics part of the effect of lines 100-113, which runs the update
    in the [ACTIVE] state only. *)
Definition statsEffect (appState : AppState) (smoothedVelocity : number)
    (s : SessionStats) : SessionStats :=
  if AppState_eqb appState ACTIVE then updateStats smoothedVelocity s else s.

(** The reset done by [handleStart] (lines 122-125); [now] is [Date.now()]. *)
Definition handleStart_stats (now : number) (s : SessionStats) : SessionStats :=
  {| totalVelocity := Fin 0; peakVelocity := Fin 0; samples := O;
     startTime := now |}.

(** The three arguments [handleEndSession] passes to [generateCosmicInsight]
    (lines 135-145). *)
Record Summary : Type := {
  averageSpeed : number;
  peakIntensity : number;
  duration : number
}.

Definition handleEndSession_summary (now : number) (s : SessionStats)
  : Summary :=
  let duration := ((now - startTime s) / Fin 1000)%js in
  let avgSpeed :=
    if (0 <? samples s)%nat
    then (totalVelocity s / Fin (INR (samples s)))%js
    else Fin 0 in
  {| averageSpeed := avgSpeed;
     peakIntensity := peakVelocity s;
     duration := duration |}.

(** A session: the reset, then one statistics update per value of the
    smoothed velocity. *)
Definition recordAll (now : number) (vs : list number) (s : SessionStats)
  : SessionStats :=
  fold_left (fun st v => updateStats v st) vs (handleStart_stats now s).


End App.

(** ** AudioEngine (services/audioService.ts) *)

Module AudioEngine.

Inductive ContextState : Type := Suspended | Running | Closed.

(** An [AudioContext]: its sample rate and its state. *)
Record AudioContext : Type := {
  sampleRate : nat;
  state : ContextState
}.

(** One [setTargetAtTime (target, startTime, timeConstant)] call. *)
Record SetTarget : Type := {
  target : number;
  startTime : number;
  timeConstant : number
}.

(** An [AudioParam]: its [value] and the automation events scheduled on it,
    the latest first. *)
Record AudioParam : Type := {
  value : number;
  events : list SetTarget
}.

Definition setTargetAtTime (tg now tc : number) (p : AudioParam) : AudioParam :=
  {| value := value p;
     events := {| target := tg; startTime := now; timeConstant := tc |}
               :: events p |}.

Inductive Input : Type := FilterInput | GainInput | Destination.

Record AudioBufferSourceNode : Type := {
  buffer : list number;
  loop : bool;
  noiseOut : list Input;
  started : bool
}.

Inductive FilterType : Type := Lowpass.

Record BiquadFilterNode : Type := {
  type : FilterType;
  frequency : AudioParam;
  filterOut : list Input
}.

Record GainNode : Type := {
  gain : AudioParam;
  gainOut : list Input
}.

(** The private fields of the class. *)
Record AudioEngine : Type := {
  ctx : option AudioContext;
  noiseNode : option AudioBufferSourceNode;
  gainNode : option GainNode;
  filterNode : option BiquadFilterNode;
  isInitialized : bool
}.

(** The engine as the class initialisers leave it. *)
Definition audioEngine : AudioEngine :=
  {| ctx := None; noiseNode := None; gainNode := None; filterNode := None;
     isInitialized := false |}.

(** What the browser contributes to [init]: the context [new
    AudioContextClass()] returns ([None] when the constructor throws) and
    the successive values of [Math.random()]. *)
Record Host : Type := {
  newAudioContext : option AudioContext;
  random : nat -> number
}.

(** [output[i] = v] on an array: nothing is written out of range. *)
Fixpoint store (i : nat) (v : number) (a : list number) : list number :=
  match a, i with
  | [], _ => []
  | _ :: t, O => v :: t
  | h :: t, S j => h :: store j v t
  end.

(** [output[i]], [undefined] (here [NaN], what arithmetic makes of it) out of
    range. *)
Definition load (i : nat) (a : list number) : number := nth i a NaN.

(** The variables of the loop of lines 21-27. *)
Record Noise : Type := {
  output : list number;
  lastOut : number
}.

(** The body of the loop, for index [i]. *)
Definition noiseStep (random : nat -> number) (i : nat) (s : Noise) : Noise :=
  let white := (random i * Fin 2 - Fin 1)%js in
  let output1 := store i ((lastOut s + Fin 0.02 * white) / Fin 1.02)%js (output s) in
  let lastOut1 := load i output1 in
  let output2 := store i (load i output1 * Fin 3.5)%js output1 in
  {| output := output2; lastOut := lastOut1 |}.

(** [for (let i = start; i < start + n; i++)] *)
Fixpoint noiseLoop (random : nat -> number) (start n : nat) (s : Noise) : Noise :=
  match n with
  | O => s
  | S m => noiseLoop random (S start) m (noiseStep random start s)
  end.

(** Lines 17-21: the buffer [createBuffer] returns is filled with zeros. *)
Definition blank (bufferSize : nat) : Noise :=
  {| output := repeat (Fin 0) bufferSize; lastOut := Fin 0 |}.

(** Lines 17-27. *)
Definition noiseBuffer (random : nat -> number) (bufferSize : nat) : Noise :=
  noiseLoop random 0 bufferSize (blank bufferSize).

Definition init (h : Host) (e : AudioEngine) : result AudioEngine :=
  if isInitialized e then Ok e
  else
    match newAudioContext h with
    | None => Throw
    | Some c =>
        let bufferSize := (2 * sampleRate c)%nat in
        let noise := noiseBuffer (random h) bufferSize in
        Ok {| ctx := Some c;
              noiseNode :=
                Some {| buffer := output noise; loop := true;
                        noiseOut := [FilterInput]; started := true |};
              gainNode :=
                Some {| gain := {| value := Fin 0; events := [] |};
                        gainOut := [Destination] |};
              filterNode :=
                Some {| type := Lowpass;
                        frequency := {| value := Fin 200; events := [] |};
                        filterOut := [GainInput] |};
              isInitialized := true |}
    end.

Definition resume (e : AudioEngine) : AudioEngine :=
  match ctx e with
  | Some c =>
      match state c with
      | Suspended =>
          {| ctx := Some {| sampleRate := sampleRate c; state := Running |};
             noiseNode := noiseNode e; gainNode := gainNode e;
             filterNode := filterNode e; isInitialized := isInitialized e |}
      | _ => e
      end
  | None => e
  end.

Definition targetGain (intensity : number) : number :=
  Num.min (intensity * Fin 1.5)%js (Fin 0.8).

Definition targetFreq (intensity : number) : number :=
  (Fin 200 + intensity * Fin 1500)%js.

(** [now] is the value of [ctx.currentTime] read at line 60. *)
Definition updateWind (now intensity : number) (e : AudioEngine) : AudioEngine :=
  match ctx e, gainNode e, filterNode e with
  | Some _, Some g, Some f =>
      {| ctx := ctx e;
         noiseNode := noiseNode e;
         gainNode :=
           Some {| gain := setTargetAtTime (targetGain intensity) now (Fin 0.1)
                             (gain g);
                   gainOut := gainOut g |};
         filterNode :=
           Some {| type := type f;
                   frequency := setTargetAtTime (targetFreq intensity) now
                                  (Fin 0.2) (frequency f);
                   filterOut := filterOut f |};
         isInitialized := isInitialized e |}
  | _, _, _ => e
  end.

Definition stop (e : AudioEngine) : AudioEngine :=
  match ctx e with
  | Some c =>
      {| ctx := Some {| sampleRate := sampleRate c; state := Closed |};
         noiseNode := noiseNode e; gainNode := gainNode e;
         filterNode := filterNode e; isInitialized := false |}
  | None => e
  end.

(** The loop invariant: the array keeps its length [L] and the filter state
    is a finite number of [[-1, 1]]. *)
Definition noise_inv (L : nat) (s : Noise) : Prop :=
  length (output s) = L
  /\ exists r, lastOut s = Fin r /\ -1 <= r <= 1.

(** The draw [i] is a finite number of [[0, 1]], so that [white] is in
    [[-1, 1]]. *)
Definition unit_draw (random : nat -> number) (i : nat) : Prop :=
  exists u, random i = Fin u /\ 0 <= u <= 1.

(** A host for examples: a suspended context with a sample rate of 2 and a
    random source that always returns 0.5. *)
Definition quietHost : Host :=
  {| newAudioContext := Some {| sampleRate := 2; state := Suspended |};
     random := fun _ => Fin 0.5 |}.

End AudioEngine.

(** ** GalaxyScene: the particle generator *)

Module GalaxyScene.

(** The numeric galaxy parameters (the two colours are left out, with the
    colour attribute they feed). *)
Record Parameters : Type := {
  count : nat;
  size : number;
  radius : number;
  branches : nat;
  spin : number;
  randomness : number;
  randomnessPower : nat
}.

#[warnings="-abstract-large-number"]
Definition parameters : Parameters :=
  {| count := 15000; size := Fin 0.02; radius := Fin 5; branches := 3;
     spin := Fin 1; randomness := Fin 0.2; randomnessPower := 3 |}.

(** The same parameters with another [randomnessPower]. *)
Definition withPower (power : nat) (p : Parameters) : Parameters :=
  {| count := count p; size := size p; radius := radius p;
     branches := branches p; spin := spin p; randomness := randomness p;
     randomnessPower := power |}.

(** [i % n] on non-negative integers; [NaN] when [n] is zero. *)
Definition rem (i n : nat) : number :=
  match n with
  | O => NaN
  | S _ => Fin (INR (i mod n))
  end.

(** One of lines 52-54: two draws, [random k] for the magnitude and
    [random (k + 1)] for the sign. *)
Definition randomOffset (p : Parameters) (random : nat -> number) (k : nat)
    (r : number) : number :=
  (Num.pow (random k) (randomnessPower p)
   * (if lt (random (S k)) (Fin 0.5) then Fin 1 else Fin (-1))
   * randomness p * r)%js.

(** What one iteration of the loop of lines 44-58 computes. *)
Record Particle : Type := {
  randomX : number;
  randomY : number;
  randomZ : number;
  position : number * number * number
}.

(** Iteration [i]; it makes seven draws, so its first one is draw [7 * i]. *)
Definition particle (p : Parameters) (random : nat -> number) (i : nat)
  : Particle :=
  let k := (7 * i)%nat in
  let r := (random k * radius p)%js in
  let spinAngle := (r * spin p)%js in
  let branchAngle :=
    (rem i (branches p) / Fin (INR (branches p)) * Fin PI * Fin 2)%js in
  let rX := randomOffset p random (k + 1) r in
  let rY := randomOffset p random (k + 3) r in
  let rZ := randomOffset p random (k + 5) r in
  {| randomX := rX; randomY := rY; randomZ := rZ;
     position :=
       ((Num.cos (branchAngle + spinAngle) * r + rX)%js,
        rY,
        (Num.sin (branchAngle + spinAngle) * r + rZ)%js) |}.

(** The particles of indices [0 .. count - 1]. *)
Definition particles (p : Parameters) (random : nat -> number) : list Particle :=
  map (particle p random) (seq 0 (count p)).


(** The absolute per-axis offsets of all particles, and their mean. *)
Definition absOffsets (p : Parameters) (random : nat -> number) : list number :=
  flat_map (fun q => [Num.abs (randomX q); Num.abs (randomY q);
                      Num.abs (randomZ q)])
           (particles p random).

Definition sum (l : list number) : number := fold_right add (Fin 0) l.

Definition meanAbsOffset (p : Parameters) (random : nat -> number) : number :=
  (sum (absOffsets p random) / Fin (INR (3 * count p)))%js.

(** The three axes, the offset of a particle along one of them, and the
    index of the draw that gives its magnitude. *)
Inductive Axis : Type := AxisX | AxisY | AxisZ.

Definition offset (a : Axis) (q : Particle) : number :=
  match a with
  | AxisX => randomX q
  | AxisY => randomY q
  | AxisZ => randomZ q
  end.

Definition magnitudeDraw (a : Axis) (i : nat) : nat :=
  match a with
  | AxisX => 7 * i + 1
  | AxisY => 7 * i + 3
  | AxisZ => 7 * i + 5
  end.

(** A random source whose draws are the finite numbers [draws k]. *)
Definition finiteSource (draws : nat -> R) : nat -> number :=
  fun k => Fin (draws k).

(** The offset of lines 52-54 on real numbers: [u] is the magnitude draw,
    [w] the sign draw, [rn] the randomness and [r] the radius of the
    particle. *)
Definition offsetR (power : nat) (rn r u w : R) : R :=
  u ^ power * (if Rltb w 0.5 then 1 else -1) * rn * r.

(** The sum of the absolute offsets of the particles of indices [l]. *)
Definition absTotalR (power : nat) (rn rd : R) (draws : nat -> R)
    (l : list nat) : R :=
  fold_right
    (fun i acc =>
       let r := draws (7 * i)%nat * rd in
       let A a := Rabs (offsetR power rn r (draws (magnitudeDraw a i))
                                (draws (S (magnitudeDraw a i)))) in
       A AxisX + (A AxisY + (A AxisZ + acc)))
    0 l.

(** The specification's reading of tightness: power 3 makes every offset
    strictly smaller in absolute value than power 1, whatever the draws of
    [[0, 1)]. *)
Definition power_three_shrinks_every_offset : Prop :=
  forall draws : nat -> R,
    (forall k, 0 <= draws k < 1) ->
    forall i a,
      exists a1 a3,
        offset a (particle (withPower 1 parameters) (finiteSource draws) i) = Fin a1
        /\ offset a (particle (withPower 3 parameters) (finiteSource draws) i) = Fin a3
        /\ Rabs a3 < Rabs a1.

(** Draws that are all 0.5, but for draw 1, which is 0. *)
Definition drawsWithZero : nat -> R :=
  fun k => if (k =? 1)%nat then 0 else 0.5.

End GalaxyScene.

(** ** MotionController: the whole frame callback and the velocity it feeds *)

Module MotionLoop.

Import MotionController.

(** [videoRef.current], as far as [predictWebcam] reads it. *)
Record Video : Type := { videoWidth : nat; videoHeight : nat }.

(** [handLandmarkerRef.current.detectForVideo]: the landmarks it returns for
    a video and a time stamp. *)
Definition HandLandmarker : Type :=
  Video -> number -> option (list (list Landmark)).

Record Refs : Type := {
  handLandmarkerRef : option HandLandmarker;
  videoRef : option Video
}.

(** What one call of [predictWebcam] did: the argument of
    [onVelocityChange] when it was called, the new [lastHandPos.current],
    and whether the next animation frame was requested. *)
Record Call : Type := {
  emitted : option number;
  stored : option HandPos;
  requested : bool
}.

(** [predictWebcam] (lines 194-240); [startTimeMs] and [currentTime] are the
    two values of [performance.now()]. *)
Definition predictWebcamCall (refs : Refs) (isActive : bool)
    (startTimeMs currentTime : number) (last : option HandPos) : result Call :=
  match handLandmarkerRef refs, videoRef refs with
  | Some detector, Some video =>
      if ((videoWidth video =? 0) || (videoHeight video =? 0))%nat
      then Ok {| emitted := None; stored := last; requested := true |}
      else
        match predictWebcam (detector video startTimeMs) currentTime last with
        | Ok f => Ok {| emitted := onVelocityChange f;
                        stored := lastHandPos f;
                        requested := isActive |}
        | Throw => Throw
        end
  | _, _ => Ok {| emitted := None; stored := last; requested := false |}
  end.

(** The [velocity] state of [App], which [handleVelocityChange] sets, with
    the memory of the controller. *)
Record Tracker : Type := {
  velocity : number;
  lastHand : option HandPos
}.

(** [useState(0)] and [useRef(null)]. *)
Definition mounted : Tracker := {| velocity := Fin 0; lastHand := None |}.

(** The inputs of one call. *)
Record Tick : Type := {
  refs : Refs;
  isActive : bool;
  startTimeMs : number;
  currentTime : number
}.

Definition step (t : Tick) (s : Tracker) : result Tracker :=
  match predictWebcamCall (refs t) (isActive t) (startTimeMs t) (currentTime t)
                          (lastHand s) with
  | Ok c => Ok {| velocity := match emitted c with
                              | Some v => v
                              | None => velocity s
                              end;
                  lastHand := stored c |}
  | Throw => Throw
  end.

(** Successive calls; an exception ends the loop. *)
Fixpoint run (ts : list Tick) (s : Tracker) : result Tracker :=
  match ts with
  | [] => Ok s
  | t :: rest =>
      match step t s with
      | Ok s' => run rest s'
      | Throw => Throw
      end
  end.

(** A call at time [t] on a ready video in which the detector sees no hand
    ([None]) or one hand whose wrist is at [(a, b)]. *)
Definition observe (o : R * option (R * R)) : Tick :=
  {| refs :=
       {| handLandmarkerRef :=
            Some (fun _ _ => match snd o with
                             | Some (a, b) => oneHand a b
                             | None => Some []
                             end);
          videoRef := Some {| videoWidth := 640; videoHeight := 480 |} |};
     isActive := true;
     startTimeMs := Fin (fst o);
     currentTime := Fin (fst o) |}.

(** The observations are later than [t0] and in strictly increasing order
    of time. *)
Fixpoint laterThan (t0 : R) (obs : list (R * option (R * R))) : Prop :=
  match obs with
  | [] => True
  | o :: rest => t0 < fst o /\ laterThan (fst o) rest
  end.

(** The stored sample, if any, is finite and taken at or before [t0]. *)
Definition storedBefore (t0 : R) (s : Tracker) : Prop :=
  match lastHand s with
  | None => True
  | Some l => exists a b t, l = sample a b t /\ t <= t0
  end.

End MotionLoop.

(** ** AudioEngine: successive updates *)

Module AudioSession.

Import AudioEngine.

(** Calls of [updateWind], each with the time read from the context and the
    intensity. *)
Definition updateWindAll (calls : list (number * number)) (e : AudioEngine)
  : AudioEngine :=
  fold_left (fun acc c => updateWind (fst c) (snd c) acc) calls e.

(** The automation event one call schedules on the gain and on the filter
    frequency. *)
Definition gainEvent (c : number * number) : SetTarget :=
  {| target := targetGain (snd c); startTime := fst c; timeConstant := Fin 0.1 |}.

Definition freqEvent (c : number * number) : SetTarget :=
  {| target := targetFreq (snd c); startTime := fst c; timeConstant := Fin 0.2 |}.

End AudioSession.

(** ** geminiService: the request for an insight *)

Module GeminiService.

Import String.




Record CosmicReading : Type := {
  title : String.string;
  insight : String.string
}.




End GeminiService.

(** ** App: the frames of a session, its start and its end *)

Module AppSession.

Import App GeminiService.

(** The smoothed velocity after one animation frame per element of
    [velocities], the value of [velocity] at that frame. *)
Definition smoothRun (velocities : list number) (prev : number) : number :=
  fold_left (fun s v => smooth v s) velocities prev.

(** The state the handlers of [App] act on: the React state ([appState],
    [velocity], [smoothedVelocity], [cosmicReading]), the statistics
    reference, the audio engine and the number of alerts shown. *)
Record AppModel : Type := {
  appState : AppState;
  velocity : number;
  smoothedVelocity : number;
  cosmicReading : option CosmicReading;
  sessionStats : SessionStats;
  engine : AudioEngine.AudioEngine;
  alerts : nat
}.

(** [handleStart] (lines 115-129).  [granted] tells whether the promise of
    [getUserMedia] is fulfilled and [now] is [Date.now()].  The state was
    already set to [ACTIVE] when [init] throws. *)
Definition handleStart (granted : bool) (h : AudioEngine.Host) (now : number)
    (a : AppModel) : AppModel :=
  if granted then
    match AudioEngine.init h (engine a) with
    | Ok e =>
        {| appState := ACTIVE;
           velocity := velocity a;
           smoothedVelocity := smoothedVelocity a;
           cosmicReading := cosmicReading a;
           sessionStats := handleStart_stats now (sessionStats a);
           engine := AudioEngine.resume e;
           alerts := alerts a |}
    | Throw =>
        {| appState := ACTIVE;
           velocity := velocity a;
           smoothedVelocity := smoothedVelocity a;
           cosmicReading := cosmicReading a;
           sessionStats := sessionStats a;
           engine := engine a;
           alerts := S (alerts a) |}
    end
  else
    {| appState := appState a;
       velocity := velocity a;
           smoothedVelocity := smoothedVelocity a;
           cosmicReading := cosmicReading a;
       sessionStats := sessionStats a;
       engine := engine a;
       alerts := S (alerts a) |}.



(** The application when it is loaded. *)
Definition loaded : AppModel :=
  {| appState := INTRO;
     velocity := Fin 0;
     smoothedVelocity := Fin 0;
     cosmicReading := None;
     sessionStats := {| totalVelocity := Fin 0; peakVelocity := Fin 0;
                        samples := 0; startTime := Fin 0 |};
     engine := AudioEngine.audioEngine;
     alerts := 0 |}.

(** The velocities a session records, their sum and their maximum. *)
Definition recorded (vs : list R) : list R :=
  filter (fun v => Rltb 0.05 v) vs.

Definition sumR (l : list R) : R := fold_right Rplus 0 l.

Definition maxR (l : list R) : R := fold_right Rmax 0 l.

(** The statistics of a session of two frames, for examples. *)
Definition exampleStats : SessionStats :=
  recordAll (Fin 0) (map Fin [0.2; 0.9]) (sessionStats loaded).

End AppSession.

(** ** GalaxyScene: the animation of the field *)

Module FieldAnimator.

(** [pointsRef.current], as far as [useFrame] changes it. *)
Record Points : Type := {
  rotationX : number;
  rotationY : number;
  scale : number * number * number
}.

(** The callback of [useFrame] (lines 75-88).  [lerp] is
    [THREE.MathUtils.lerp] and [vlerp] the [lerp] method of a vector of
    three.js; both are taken as they come. *)
Definition useFrame (lerp : number -> number -> number -> number)
    (vlerp : number * number * number -> number * number * number -> number
             -> number * number * number)
    (velocity delta : number) (pointsRef : option Points) : option Points :=
  match pointsRef with
  | Some points =>
      let rotationSpeed :=
        (Fin 0.05 * delta + (velocity * Fin 2 * delta))%js in
      let targetScale := (Fin 1 + velocity * Fin 0.5)%js in
      Some {| rotationX := lerp (rotationX points) (velocity * Fin 0.5)%js
                                (Fin 0.1);
              rotationY := (rotationY points + rotationSpeed)%js;
              scale := vlerp (scale points)
                             (targetScale, targetScale, targetScale)
                             (Fin 0.1) |}
  | None => None
  end.

(** Successive frames with the same velocity, one per elapsed time of
    [deltas]. *)
Definition frames (lerp : number -> number -> number -> number)
    (vlerp : number * number * number -> number * number * number -> number
             -> number * number * number)
    (velocity : number) (deltas : list number) (pointsRef : option Points)
  : option Points :=
  fold_left (fun p delta => useFrame lerp vlerp velocity delta p) deltas
            pointsRef.

End FieldAnimator.

(** ** GalaxyScene: the positions array *)

Module GalaxyArray.

Import GalaxyScene.




End GalaxyArray.

(** ** The statistics in binary64 *)

(** The statistics of [App] with the arithmetic of the JavaScript engine:
    every number is a binary64 float and every operation rounds. *)
Module Binary64.

Import PrimFloat.

Record SessionStats : Type := {
  totalVelocity : float;
  peakVelocity : float;
  samples : float;
  startTime : float
}.

(** Lines 105-111; [a > b] is [ltb b a]. *)
#[warnings="-inexact-float"]
Definition updateStats (smoothedVelocity : float) (s : SessionStats)
  : SessionStats :=
  if ltb 0.05 smoothedVelocity then
    {| totalVelocity := (totalVelocity s + smoothedVelocity)%float;
       peakVelocity :=
         if ltb (peakVelocity s) smoothedVelocity
         then smoothedVelocity else peakVelocity s;
       samples := (samples s + 1)%float;
       startTime := startTime s |}
  else s.

(** Lines 122-125. *)
Definition handleStart_stats (now : float) (s : SessionStats) : SessionStats :=
  {| totalVelocity := 0%float; peakVelocity := 0%float; samples := 0%float;
     startTime := now |}.

(** Lines 136-138. *)
Definition avgSpeed (s : SessionStats) : float :=
  if ltb 0 (samples s) then (totalVelocity s / samples s)%float else 0%float.

Definition recordAll (now : float) (vs : list float) (s : SessionStats)
  : SessionStats :=
  fold_left (fun st v => updateStats v st) vs (handleStart_stats now s).





End Binary64.

(** ** Facts on the decision procedures *)

Lemma Rltb_true (a b : R) : a < b -> Rltb a b = true.
Proof. intros H. unfold Rltb. destruct (Rlt_dec a b); [reflexivity | contradiction]. Qed.

Lemma Rltb_false (a b : R) : b <= a -> Rltb a b = false.
Proof. intros H. unfold Rltb. destruct (Rlt_dec a b); [lra | reflexivity]. Qed.

Lemma Rltb_spec (a b : R) : Rltb a b = true <-> a < b.
Proof.
  unfold Rltb. destruct (Rlt_dec a b); split; intros H;
    try reflexivity; try assumption; try discriminate; contradiction.
Qed.

Lemma Rzerob_true (a : R) : a = 0 -> Rzerob a = true.
Proof. intros H. unfold Rzerob. destruct (Req_dec_T a 0); [reflexivity | contradiction]. Qed.

Lemma Rzerob_false (a : R) : a <> 0 -> Rzerob a = false.
Proof. intros H. unfold Rzerob. destruct (Req_dec_T a 0); [contradiction | reflexivity]. Qed.

Lemma div_finite (r s : R) : s <> 0 -> div (Fin r) (Fin s) = Fin (r / s).
Proof. intros H. simpl. now rewrite (Rzerob_false s H). Qed.

Lemma sqrt_finite (r : R) : 0 <= r -> Num.sqrt (Fin r) = Fin (R_sqrt.sqrt r).
Proof. intros H. simpl. now rewrite (Rltb_false r 0 H). Qed.

Lemma add_finite (r s : R) : add (Fin r) (Fin s) = Fin (r + s).
Proof. reflexivity. Qed.

Lemma sub_finite (r s : R) : sub (Fin r) (Fin s) = Fin (r - s).
Proof. reflexivity. Qed.

Lemma mul_finite (r s : R) : mul (Fin r) (Fin s) = Fin (r * s).
Proof. reflexivity. Qed.

Lemma min_finite (r s : R) : Num.min (Fin r) (Fin s) = Fin (Rmin r s).
Proof. reflexivity. Qed.

(** Arithmetic on finite numbers is the arithmetic of the reals. *)
Create Rewrite HintDb js_finite.
#[local] Hint Rewrite add_finite sub_finite mul_finite min_finite : js_finite.

Ltac js_finite := autorewrite with js_finite.

Lemma div_by_zero (r : R) : 0 < r -> div (Fin r) (Fin 0) = PosInf.
Proof.
  intros H. simpl. rewrite (Rzerob_true 0 eq_refl).
  rewrite Rzerob_false by lra. now rewrite Rltb_true.
Qed.

Lemma div_zero_zero : div (Fin 0) (Fin 0) = NaN.
Proof. simpl. now rewrite (Rzerob_true 0 eq_refl). Qed.

Lemma gt_finite (r s : R) : gt (Fin r) (Fin s) = true <-> s < r.
Proof. simpl. apply Rltb_spec. Qed.

Lemma gt_finite_false (r s : R) : gt (Fin r) (Fin s) = false <-> r <= s.
Proof.
  simpl. unfold Rltb. destruct (Rlt_dec s r); split; intros H;
    try reflexivity; try discriminate; lra.
Qed.

Lemma sq_sum_nonneg (a b : R) : 0 <= a * a + b * b.
Proof. nra. Qed.

(** ** The velocity estimator *)

Section Estimator.

Import MotionController.

Lemma euclideanDistance_nonneg (x1 y1 x2 y2 : R) :
  0 <= euclideanDistance x1 y1 x2 y2.
Proof. apply sqrt_pos. Qed.

Lemma euclideanDistance_zero (x1 y1 x2 y2 : R) :
  euclideanDistance x1 y1 x2 y2 = 0 <-> x2 = x1 /\ y2 = y1.
Proof.
  unfold euclideanDistance. split.
  - intros H.
    assert (H0 : (x2 - x1) * (x2 - x1) + (y2 - y1) * (y2 - y1) = 0)
      by (apply sqrt_eq_0; [apply sq_sum_nonneg | exact H]).
    apply Rplus_sqr_eq_0 in H0. destruct H0; split; lra.
  - intros [-> ->]. replace ((x1 - x1) * (x1 - x1) + (y1 - y1) * (y1 - y1))
      with 0 by ring. apply sqrt_0.
Qed.

Variables (x1 y1 t1 x2 y2 z2 t2 : R).

(** Before the clamp, on finite samples taken at different times. *)
Lemma velocityOf_finite :
  t2 <> t1 ->
  velocityOf (sample x1 y1 t1) (landmark x2 y2 z2) (Fin t2)
  = Fin (Rmin (euclideanDistance x1 y1 x2 y2 / ((t2 - t1) / 1000) * 2) 1.5).
Proof.
  intros Ht. unfold velocityOf, sample, landmark; cbn [lx ly x y time].
  js_finite.
  rewrite sqrt_finite by apply sq_sum_nonneg.
  rewrite (div_finite (t2 - t1) 1000) by lra.
  rewrite div_finite by (intros H; apply Ht; lra).
  reflexivity.
Qed.

(** Two samples with the same time stamp divide by zero: a hand that moved
    gives [Infinity], clamped to 1.5, and a hand that did not gives
    [0 / 0], which is [NaN]. *)
Lemma velocityOf_same_time_moved :
  t2 = t1 -> (x2 <> x1 \/ y2 <> y1) ->
  velocityOf (sample x1 y1 t1) (landmark x2 y2 z2) (Fin t2) = Fin 1.5.
Proof.
  intros -> Hmove. unfold velocityOf, sample, landmark; cbn [lx ly x y time].
  js_finite.
  rewrite sqrt_finite by apply sq_sum_nonneg.
  rewrite (div_finite (t1 - t1) 1000) by lra.
  replace ((t1 - t1) / 1000) with 0 by lra.
  fold (euclideanDistance x1 y1 x2 y2).
  rewrite div_by_zero.
  - simpl. rewrite Rzerob_false by lra. now rewrite Rltb_true by lra.
  - destruct (euclideanDistance_nonneg x1 y1 x2 y2) as [H | H]; [exact H |].
    symmetry in H. apply euclideanDistance_zero in H. tauto.
Qed.

Lemma velocityOf_same_time_still :
  t2 = t1 -> x2 = x1 -> y2 = y1 ->
  velocityOf (sample x1 y1 t1) (landmark x2 y2 z2) (Fin t2) = NaN.
Proof.
  intros -> -> ->. unfold velocityOf, sample, landmark; cbn [lx ly x y time].
  js_finite.
  rewrite sqrt_finite by apply sq_sum_nonneg.
  rewrite (div_finite (t1 - t1) 1000) by lra.
  replace ((t1 - t1) / 1000) with 0 by lra.
  replace ((x1 - x1) * (x1 - x1) + (y1 - y1) * (y1 - y1)) with 0 by ring.
  rewrite sqrt_0, div_zero_zero. reflexivity.
Qed.

End Estimator.

Section EstimatorProperties.

Import MotionController.

Lemma scaled_velocity_nonneg (d dt : R) : 0 <= d -> 0 < dt -> 0 <= 2 * d / dt.
Proof.
  intros Hd Hdt. unfold Rdiv. apply Rmult_le_pos; [lra |].
  left. now apply Rinv_0_lt_compat.
Qed.

Lemma scaled_velocity_nonpos (d dt : R) : 0 <= d -> dt < 0 -> 2 * d / dt <= 0.
Proof.
  intros Hd Hdt. unfold Rdiv.
  assert (H : / dt < 0) by now apply Rinv_lt_0_compat.
  nra.
Qed.

(** C2. With a previous sample [(x1, y1)] at [t1] and a wrist at [(x2, y2)]
    at a later time [t2], [predictWebcam] passes exactly
    [min (2 * distance / dt, 1.5)] to [onVelocityChange], [dt] being
    [t2 - t1] in seconds, and this value is not negative; the samples
    [(0.1, 0.1)] at 0 ms and [(0.3, 0.1)] at 100 ms give 1.5. *)
Theorem C2_velocity_is_clamped_scaled_speed :
  (forall x1 y1 t1 x2 y2 z2 t2 rest hands,
      t1 < t2 ->
      let v := Rmin (2 * euclideanDistance x1 y1 x2 y2 / ((t2 - t1) / 1000)) 1.5 in
      predictWebcam (Some ((landmark x2 y2 z2 :: rest) :: hands)) (Fin t2)
                    (Some (sample x1 y1 t1))
      = Ok {| onVelocityChange := Some (Fin v);
              lastHandPos := Some (sample x2 y2 t2) |}
      /\ 0 <= v)
  /\ predictWebcam (oneHand 0.3 0.1) (Fin 100) (Some (sample 0.1 0.1 0))
     = Ok {| onVelocityChange := Some (Fin 1.5);
             lastHandPos := Some (sample 0.3 0.1 100) |}.
Proof.
  assert (General : forall x1 y1 t1 x2 y2 z2 t2 rest hands,
      t1 < t2 ->
      let v := Rmin (2 * euclideanDistance x1 y1 x2 y2 / ((t2 - t1) / 1000)) 1.5 in
      predictWebcam (Some ((landmark x2 y2 z2 :: rest) :: hands)) (Fin t2)
                    (Some (sample x1 y1 t1))
      = Ok {| onVelocityChange := Some (Fin v);
              lastHandPos := Some (sample x2 y2 t2) |}
      /\ 0 <= v).
  { intros x1 y1 t1 x2 y2 z2 t2 rest hands Ht v. split.
    - unfold predictWebcam.
      rewrite velocityOf_finite by lra. subst v.
      replace (euclideanDistance x1 y1 x2 y2 / ((t2 - t1) / 1000) * 2)
        with (2 * euclideanDistance x1 y1 x2 y2 / ((t2 - t1) / 1000))
        by (unfold Rdiv; ring).
      reflexivity.
    - subst v. apply Rmin_glb; [| lra].
      apply scaled_velocity_nonneg; [apply euclideanDistance_nonneg | lra]. }
  split; [exact General |].
  destruct (General 0.1 0.1 0 0.3 0.1 0 100 [] []) as [E _]; [lra |].
  unfold oneHand. rewrite E.
  assert (D : euclideanDistance 0.1 0.1 0.3 0.1 = 0.2).
  { unfold euclideanDistance.
    replace ((0.3 - 0.1) * (0.3 - 0.1) + (0.1 - 0.1) * (0.1 - 0.1))
      with (0.2 * 0.2) by lra.
    apply sqrt_square. lra. }
  rewrite D, Rmin_right by lra. reflexivity.
Qed.

Lemma C2_witness :
  0 < 100
  /\ predictWebcam (Some ((landmark 0.3 0.1 0 :: []) :: [])) (Fin 100)
                   (Some (sample 0.1 0.1 0))
     = Ok {| onVelocityChange :=
               Some (Fin (Rmin (2 * euclideanDistance 0.1 0.1 0.3 0.1
                                / ((100 - 0) / 1000)) 1.5));
             lastHandPos := Some (sample 0.3 0.1 100) |}.
Proof.
  split; [lra |].
  apply (proj1 C2_velocity_is_clamped_scaled_speed 0.1 0.1 0 0.3 0.1 0 100 [] []).
  lra.
Defined.

(** C1, refuted: two samples with the same time stamp 100, the wrist moving
    from [(0.1, 0.1)] to [(0.3, 0.1)].  The division by zero gives
    [Infinity], 1.5 is emitted and the new sample is stored. *)
Lemma C1_counterexample :
  predictWebcam (oneHand 0.3 0.1) (Fin 100) (Some (sample 0.1 0.1 100))
  = Ok {| onVelocityChange := Some (Fin 1.5);
          lastHandPos := Some (sample 0.3 0.1 100) |}
  /\ ~ stale_sample_is_ignored.
Proof.
  assert (E : predictWebcam (oneHand 0.3 0.1) (Fin 100) (Some (sample 0.1 0.1 100))
              = Ok {| onVelocityChange := Some (Fin 1.5);
                      lastHandPos := Some (sample 0.3 0.1 100) |}).
  { unfold predictWebcam, oneHand.
    rewrite velocityOf_same_time_moved; [reflexivity | reflexivity | left; lra]. }
  split; [exact E |].
  intros H. specialize (H 0.1 0.1 100 0.3 0.1 100 (Rle_refl _)).
  rewrite E in H. discriminate H.
Qed.

(** C1, as the code has it.  With a previous sample [(x1, y1)] at [t1] and
    a wrist at [(x2, y2)] at a time [t2 <= t1], [predictWebcam] does not
    throw, but it is not a no-op: it calls [onVelocityChange] once and
    replaces the stored sample by the current one.  For [t2 < t1] the value
    emitted is [2 * distance / dt], which is not positive. *)
Theorem C1_stale_sample_is_processed :
  forall x1 y1 t1 x2 y2 z2 t2 rest hands,
    t2 <= t1 ->
    exists v,
      predictWebcam (Some ((landmark x2 y2 z2 :: rest) :: hands)) (Fin t2)
                    (Some (sample x1 y1 t1))
      = Ok {| onVelocityChange := Some v;
              lastHandPos := Some (sample x2 y2 t2) |}
      /\ (t2 < t1 ->
          v = Fin (2 * euclideanDistance x1 y1 x2 y2 / ((t2 - t1) / 1000))
          /\ 2 * euclideanDistance x1 y1 x2 y2 / ((t2 - t1) / 1000) <= 0).
Proof.
  intros x1 y1 t1 x2 y2 z2 t2 rest hands Ht.
  exists (velocityOf (sample x1 y1 t1) (landmark x2 y2 z2) (Fin t2)).
  split; [reflexivity |].
  intros Hlt.
  assert (Hneg : 2 * euclideanDistance x1 y1 x2 y2 / ((t2 - t1) / 1000) <= 0)
    by (apply scaled_velocity_nonpos; [apply euclideanDistance_nonneg | lra]).
  split; [| exact Hneg].
  rewrite velocityOf_finite by lra.
  f_equal. rewrite Rmin_left.
  - unfold Rdiv. ring.
  - replace (euclideanDistance x1 y1 x2 y2 / ((t2 - t1) / 1000) * 2)
      with (2 * euclideanDistance x1 y1 x2 y2 / ((t2 - t1) / 1000))
      by (unfold Rdiv; ring).
    lra.
Qed.

Lemma C1_witness :
  50 <= 100
  /\ exists v,
      predictWebcam (Some ((landmark 0.3 0.1 0 :: []) :: [])) (Fin 50)
                    (Some (sample 0.1 0.1 100))
      = Ok {| onVelocityChange := Some v;
              lastHandPos := Some (sample 0.3 0.1 50) |}
      /\ (50 < 100 ->
          v = Fin (2 * euclideanDistance 0.1 0.1 0.3 0.1 / ((50 - 100) / 1000))
          /\ 2 * euclideanDistance 0.1 0.1 0.3 0.1 / ((50 - 100) / 1000) <= 0).
Proof.
  split; [lra |].
  apply (C1_stale_sample_is_processed 0.1 0.1 100 0.3 0.1 0 50 [] []).
  lra.
Defined.

(** C5. Without a hand in the frame ([landmarks] undefined or empty),
    [predictWebcam] calls [onVelocityChange (0)] and sets [lastHandPos] to
    [null], whatever it held; with a hand and no previous sample it does not
    call [onVelocityChange] at all and stores the current sample. *)
Theorem C5_no_hand_or_no_previous_sample :
  (forall t last,
      predictWebcam None t last
      = Ok {| onVelocityChange := Some (Fin 0); lastHandPos := None |})
  /\ (forall t last,
      predictWebcam (Some []) t last
      = Ok {| onVelocityChange := Some (Fin 0); lastHandPos := None |})
  /\ (forall wrist rest hands t,
      predictWebcam (Some ((wrist :: rest) :: hands)) t None
      = Ok {| onVelocityChange := None;
              lastHandPos :=
                Some {| x := lx wrist; y := ly wrist; time := t |} |}).
Proof.
  repeat split.
Qed.

End EstimatorProperties.

(** ** The smoothing of the velocity *)

Section Smoothing.

Import App.

Lemma smooth_finite (T s : R) :
  smooth (Fin T) (Fin s) = Fin (s + 0.1 * (T - s)).
Proof.
  unfold smooth. js_finite. f_equal. ring.
Qed.

(** [n] frames towards a constant target [T]: the distance to the target
    is multiplied by 0.9 at every frame. *)
Lemma smoothLoop_finite (n : nat) (T s : R) :
  smoothLoop n (Fin T) (Fin s) = Fin (T + (s - T) * 0.9 ^ n).
Proof.
  revert s. induction n as [| n IH]; intros s.
  - simpl. f_equal. ring.
  - cbn [smoothLoop]. rewrite smooth_finite, IH. f_equal.
    replace (s + 0.1 * (T - s) - T) with ((s - T) * 0.9) by lra.
    simpl. ring.
Qed.

Lemma pow_09_pos (n : nat) : 0 < 0.9 ^ n.
Proof. apply pow_lt. lra. Qed.

Lemma pow_09_step (n : nat) : 0.9 ^ S n = 0.9 * 0.9 ^ n.
Proof. reflexivity. Qed.

Lemma smoothLoop_converges (T s eps : R) :
  0 < eps ->
  exists N, forall n, (N <= n)%nat -> Rabs ((s - T) * 0.9 ^ n) < eps.
Proof.
  intros Heps.
  set (M := Rabs (s - T) + 1).
  assert (HM : 0 < M) by (unfold M; pose proof (Rabs_pos (s - T)); lra).
  assert (Hy : 0 < eps / M) by (apply Rdiv_lt_0_compat; assumption).
  destruct (pow_lt_1_zero 0.9 ltac:(rewrite Rabs_pos_eq; lra) (eps / M) Hy)
    as [N HN].
  exists N. intros n Hn. specialize (HN n Hn).
  rewrite Rabs_mult.
  apply Rle_lt_trans with (M * Rabs (0.9 ^ n)).
  - apply Rmult_le_compat_r; [apply Rabs_pos | unfold M; lra].
  - apply Rlt_le_trans with (M * (eps / M)).
    + apply Rmult_lt_compat_l; assumption.
    + right. field. lra.
Qed.

(** C3. One frame moves the smoothed velocity by exactly
    [0.1 * (target - state)].  Under a constant target [T] the state after
    [n] frames is [T + (s - T) * 0.9 ^ n]: it moves monotonically towards
    [T], never passes it, and converges to it.  From 0.8 with target 0 it is
    [0.8 * 0.9 ^ n], between 0.2789 and 0.2790 after ten frames. *)
Theorem C3_smoothing_contracts_towards_target :
  (forall T s, smooth (Fin T) (Fin s) = Fin (s + 0.1 * (T - s)))
  /\ (forall T s n,
        exists a b,
          smoothLoop n (Fin T) (Fin s) = Fin a
          /\ smoothLoop (S n) (Fin T) (Fin s) = Fin b
          /\ (s <= T -> a <= b <= T)
          /\ (T <= s -> T <= b <= a))
  /\ (forall T s eps,
        0 < eps ->
        exists N, forall n, (N <= n)%nat ->
          exists a, smoothLoop n (Fin T) (Fin s) = Fin a /\ Rabs (a - T) < eps)
  /\ (forall n, smoothLoop n (Fin 0) (Fin 0.8) = Fin (0.8 * 0.9 ^ n))
  /\ (exists a, smoothLoop 10 (Fin 0) (Fin 0.8) = Fin a /\ 0.2789 < a < 0.2790).
Proof.
  split; [exact smooth_finite |].
  split.
  { intros T s n.
    exists (T + (s - T) * 0.9 ^ n), (T + (s - T) * 0.9 ^ S n).
    split; [apply smoothLoop_finite |].
    split; [apply smoothLoop_finite |].
    rewrite pow_09_step. pose proof (pow_09_pos n) as Hp.
    split; intros H; split; nra. }
  split.
  { intros T s eps Heps.
    destruct (smoothLoop_converges T s eps Heps) as [N HN].
    exists N. intros n Hn. exists (T + (s - T) * 0.9 ^ n).
    split; [apply smoothLoop_finite |].
    replace (T + (s - T) * 0.9 ^ n - T) with ((s - T) * 0.9 ^ n) by ring.
    now apply HN. }
  split.
  { intros n. rewrite smoothLoop_finite. f_equal. ring. }
  exists (0.8 * 0.9 ^ 10). split.
  - rewrite smoothLoop_finite. f_equal. ring.
  - simpl. lra.
Qed.

Lemma C3_witness :
  0 < 1
  /\ exists N, forall n, (N <= n)%nat ->
       exists a, smoothLoop n (Fin 0) (Fin 0.8) = Fin a /\ Rabs (a - 0) < 1.
Proof.
  split; [lra |].
  apply (proj1 (proj2 (proj2 C3_smoothing_contracts_towards_target)) 0 0.8 1).
  lra.
Defined.

(** A [NaN] velocity, which two samples with equal time stamps and equal
    positions produce, stays in the smoothed velocity for ever. *)
Lemma smooth_NaN_absorbing (velocity : number) : smooth velocity NaN = NaN.
Proof. destruct velocity; reflexivity. Qed.

Lemma smooth_NaN_target (prev : number) : smooth NaN prev = NaN.
Proof. destruct prev; reflexivity. Qed.

End Smoothing.

(** ** The audio engine *)

Section Audio.

Import AudioEngine.

Lemma targetGain_finite (i : R) : targetGain (Fin i) = Fin (Rmin (i * 1.5) 0.8).
Proof. reflexivity. Qed.

Lemma targetFreq_finite (i : R) : targetFreq (Fin i) = Fin (200 + i * 1500).
Proof. reflexivity. Qed.

(** C4. On an engine whose context and nodes exist, [updateWind] schedules
    on the gain the target [min (intensity * 1.5, 0.8)] (time constant 0.1)
    and on the filter frequency the target [200 + intensity * 1500] (time
    constant 0.2), for every intensity; these are 0 and 200 for intensity 0,
    and 0.8 and 1700 for intensity 1. *)
Theorem C4_updateWind_targets :
  (forall now intensity e c g f,
      ctx e = Some c -> gainNode e = Some g -> filterNode e = Some f ->
      exists g' f',
        gainNode (updateWind now intensity e) = Some g'
        /\ filterNode (updateWind now intensity e) = Some f'
        /\ events (gain g')
           = {| target := Num.min (intensity * Fin 1.5)%js (Fin 0.8);
                startTime := now; timeConstant := Fin 0.1 |}
             :: events (gain g)
        /\ events (frequency f')
           = {| target := (Fin 200 + intensity * Fin 1500)%js;
                startTime := now; timeConstant := Fin 0.2 |}
             :: events (frequency f))
  /\ (forall i : R,
        Num.min (Fin i * Fin 1.5)%js (Fin 0.8) = Fin (Rmin (i * 1.5) 0.8)
        /\ (Fin 200 + Fin i * Fin 1500)%js = Fin (200 + i * 1500))
  /\ targetGain (Fin 0) = Fin 0
  /\ targetFreq (Fin 0) = Fin 200
  /\ targetGain (Fin 1) = Fin 0.8
  /\ targetFreq (Fin 1) = Fin 1700.
Proof.
  split.
  { intros now intensity e c g f Hc Hg Hf.
    unfold updateWind. rewrite Hc, Hg, Hf. cbn.
    eexists. eexists. repeat split. }
  split; [intros i; split; reflexivity |].
  rewrite !targetGain_finite, !targetFreq_finite.
  repeat split; f_equal; try lra.
  - rewrite Rmin_left by lra. lra.
  - rewrite Rmin_right by lra. reflexivity.
Qed.

Lemma C4_witness :
  exists e c g f,
    init quietHost audioEngine = Ok e
    /\ ctx e = Some c /\ gainNode e = Some g /\ filterNode e = Some f
    /\ exists g' f',
        gainNode (updateWind (Fin 0) (Fin 1) e) = Some g'
        /\ filterNode (updateWind (Fin 0) (Fin 1) e) = Some f'
        /\ events (gain g')
           = {| target := Num.min (Fin 1 * Fin 1.5)%js (Fin 0.8);
                startTime := Fin 0; timeConstant := Fin 0.1 |}
             :: events (gain g)
        /\ events (frequency f')
           = {| target := (Fin 200 + Fin 1 * Fin 1500)%js;
                startTime := Fin 0; timeConstant := Fin 0.2 |}
             :: events (frequency f).
Proof.
  do 4 eexists.
  split; [reflexivity |].
  split; [reflexivity |].
  split; [reflexivity |].
  split; [reflexivity |].
  eapply (proj1 C4_updateWind_targets); reflexivity.
Defined.

(** Before [init] has built the nodes, [updateWind] does nothing. *)
Lemma updateWind_uninitialized (now intensity : number) :
  updateWind now intensity audioEngine = audioEngine.
Proof. reflexivity. Qed.

(** C8. When a call of [init] returns, a second call returns at once and
    leaves every field of the engine as the first call left it; the engine
    is then marked initialized. *)
Theorem C8_init_idempotent :
  forall h1 h2 e e1,
    init h1 e = Ok e1 ->
    init h2 e1 = Ok e1 /\ isInitialized e1 = true.
Proof.
  intros h1 h2 e e1 H. unfold init in H.
  destruct (isInitialized e) eqn:Hi.
  - injection H as <-. unfold init. rewrite Hi. split; reflexivity.
  - destruct (newAudioContext h1) as [c |]; [| discriminate H].
    injection H as <-. split; reflexivity.
Qed.

Lemma C8_witness :
  exists e1,
    init quietHost audioEngine = Ok e1
    /\ init quietHost e1 = Ok e1 /\ isInitialized e1 = true.
Proof.
  eexists. split; [reflexivity |].
  apply (C8_init_idempotent quietHost quietHost audioEngine). reflexivity.
Defined.

(** *** The noise buffer *)

Lemma store_length (i : nat) (v : number) (a : list number) :
  length (store i v a) = length a.
Proof.
  revert i. induction a as [| h t IH]; intros [| j]; simpl; auto.
Qed.

Lemma load_store_same (i : nat) (v : number) (a : list number) :
  (i < length a)%nat -> load i (store i v a) = v.
Proof.
  unfold load. revert i. induction a as [| h t IH]; intros [| j] H; simpl in *;
    try lia; auto. apply IH. lia.
Qed.

Lemma load_store_other (i j : nat) (v : number) (a : list number) :
  i <> j -> load j (store i v a) = load j a.
Proof.
  unfold load. revert i j.
  induction a as [| h t IH]; intros [| i] [| j] H; simpl; auto; try lia.
Qed.

Lemma store_store (i : nat) (v w : number) (a : list number) :
  store i w (store i v a) = store i w a.
Proof.
  revert i. induction a as [| h t IH]; intros [| j]; simpl; auto.
  now rewrite IH.
Qed.

Lemma filter_step_bounded (r u : R) :
  -1 <= r <= 1 -> 0 <= u <= 1 ->
  -1 <= (r + 0.02 * (u * 2 - 1)) / 1.02 <= 1.
Proof.
  intros Hr Hu. split.
  - apply Rmult_le_reg_r with 1.02; [lra |].
    unfold Rdiv. rewrite Rmult_assoc, Rinv_l by lra. lra.
  - apply Rmult_le_reg_r with 1.02; [lra |].
    unfold Rdiv. rewrite Rmult_assoc, Rinv_l by lra. lra.
Qed.

Lemma noiseStep_result (random : nat -> number) (L i : nat) (s : Noise) :
  noise_inv L s -> (i < L)%nat -> unit_draw random i ->
  exists r, -1 <= r <= 1
    /\ noiseStep random i s
       = {| output := store i (Fin (r * 3.5)) (output s); lastOut := Fin r |}.
Proof.
  intros [HL [r [Hr Hb]]] Hi [u [Hu Hub]].
  exists ((r + 0.02 * (u * 2 - 1)) / 1.02).
  split; [now apply filter_step_bounded |].
  unfold noiseStep. rewrite Hr, Hu.
  js_finite. rewrite div_finite by lra.
  rewrite load_store_same by lia.
  rewrite store_store. js_finite. reflexivity.
Qed.

Lemma noiseStep_inv (random : nat -> number) (L i : nat) (s : Noise) :
  noise_inv L s -> (i < L)%nat -> unit_draw random i ->
  noise_inv L (noiseStep random i s).
Proof.
  intros Hs Hi Hu.
  destruct (noiseStep_result random L i s Hs Hi Hu) as [r [Hr ->]].
  destruct Hs as [HL _]. split; cbn [output lastOut].
  - now rewrite store_length.
  - now exists r.
Qed.

Lemma noiseLoop_snoc (random : nat -> number) (k start : nat) (s : Noise) :
  noiseLoop random start (S k) s
  = noiseStep random (start + k) (noiseLoop random start k s).
Proof.
  revert start s. induction k as [| k IH]; intros start s.
  - simpl. now rewrite Nat.add_0_r.
  - change (noiseLoop random start (S (S k)) s)
      with (noiseLoop random (S start) (S k) (noiseStep random start s)).
    rewrite IH. cbn [noiseLoop]. f_equal. lia.
Qed.

Lemma noiseLoop_app (random : nat -> number) (k1 k2 start : nat) (s : Noise) :
  noiseLoop random start (k1 + k2) s
  = noiseLoop random (start + k1) k2 (noiseLoop random start k1 s).
Proof.
  revert start s. induction k1 as [| k1 IH]; intros start s.
  - simpl. now rewrite Nat.add_0_r.
  - cbn [noiseLoop Nat.add]. rewrite IH. f_equal. lia.
Qed.

Lemma noiseLoop_inv (random : nat -> number) (L k start : nat) (s : Noise) :
  noise_inv L s -> (start + k <= L)%nat ->
  (forall i, (start <= i < start + k)%nat -> unit_draw random i) ->
  noise_inv L (noiseLoop random start k s).
Proof.
  revert start s. induction k as [| k IH]; intros start s Hs Hk Hd.
  - exact Hs.
  - cbn [noiseLoop]. apply IH; [| lia | intros i Hi; apply Hd; lia].
    apply noiseStep_inv; [exact Hs | lia | apply Hd; lia].
Qed.

Lemma noiseStep_other (random : nat -> number) (i j : nat) (s : Noise) :
  i <> j -> load j (output (noiseStep random i s)) = load j (output s).
Proof.
  intros H. unfold noiseStep; cbn [output].
  now rewrite !load_store_other.
Qed.

Lemma noiseLoop_earlier (random : nat -> number) (k start j : nat) (s : Noise) :
  (j < start)%nat ->
  load j (output (noiseLoop random start k s)) = load j (output s).
Proof.
  revert start s. induction k as [| k IH]; intros start s Hj.
  - reflexivity.
  - cbn [noiseLoop]. rewrite IH by lia. apply noiseStep_other. lia.
Qed.

Lemma blank_inv (n : nat) : noise_inv n (blank n).
Proof.
  split; cbn [output lastOut blank].
  - apply repeat_length.
  - exists 0. split; [reflexivity | lra].
Qed.

Lemma noiseBuffer_bounded (random : nat -> number) (n : nat) :
  (forall i, (i < n)%nat -> unit_draw random i) ->
  length (output (noiseBuffer random n)) = n
  /\ forall i, (i < n)%nat ->
       exists r,
         lastOut (noiseLoop random 0 (S i) (blank n)) = Fin r
         /\ -1 <= r <= 1
         /\ load i (output (noiseBuffer random n)) = Fin (r * 3.5)
         /\ Rabs (r * 3.5) <= 3.5.
Proof.
  intros Hd.
  assert (Hall : forall k, (k <= n)%nat ->
                   noise_inv n (noiseLoop random 0 k (blank n))).
  { intros k Hk. apply noiseLoop_inv; [apply blank_inv | lia |].
    intros i Hi. apply Hd. lia. }
  split; [apply (Hall n (Nat.le_refl n)) |].
  intros i Hi.
  destruct (noiseStep_result random n i (noiseLoop random 0 i (blank n)))
    as [r [Hr Hstep]]; [apply Hall; lia | exact Hi | apply Hd; exact Hi |].
  exists r.
  assert (Hsnoc : noiseLoop random 0 (S i) (blank n)
                  = {| output := store i (Fin (r * 3.5))
                                   (output (noiseLoop random 0 i (blank n)));
                       lastOut := Fin r |})
    by (rewrite noiseLoop_snoc; exact Hstep).
  split; [now rewrite Hsnoc |].
  split; [exact Hr |].
  split.
  - unfold noiseBuffer.
    replace n with (S i + (n - S i))%nat at 1 by lia.
    rewrite noiseLoop_app, noiseLoop_earlier by lia.
    rewrite Hsnoc; cbn [output].
    apply load_store_same.
    destruct (Hall i) as [HL _]; [lia |]. rewrite HL. exact Hi.
  - apply Rabs_le. lra.
Qed.

(** C9. When every draw is in [[0, 1]] (so that [white] is in [[-1, 1]]),
    the filter state [lastOut] after each iteration [i] is a finite number
    [r] of [[-1, 1]], the sample left at index [i] of the buffer is
    [r * 3.5], and its absolute value is at most 3.5.  So are all the
    samples of the buffer [init] gives to the noise node. *)
Theorem C9_noise_samples_bounded :
  (forall random n,
      (forall i, (i < n)%nat -> exists u, random i = Fin u /\ 0 <= u <= 1) ->
      length (output (noiseBuffer random n)) = n
      /\ forall i, (i < n)%nat ->
           exists r,
             lastOut (noiseLoop random 0 (S i) (blank n)) = Fin r
             /\ -1 <= r <= 1
             /\ load i (output (noiseBuffer random n)) = Fin (r * 3.5)
             /\ Rabs (r * 3.5) <= 3.5)
  /\ (forall h c e,
        newAudioContext h = Some c ->
        (forall i, (i < 2 * sampleRate c)%nat ->
                   exists u, random h i = Fin u /\ 0 <= u <= 1) ->
        init h audioEngine = Ok e ->
        exists node,
          noiseNode e = Some node
          /\ length (buffer node) = (2 * sampleRate c)%nat
          /\ forall i, (i < 2 * sampleRate c)%nat ->
               exists v, load i (buffer node) = Fin v /\ Rabs v <= 3.5).
Proof.
  split; [exact noiseBuffer_bounded |].
  intros h c e Hc Hd He.
  unfold init in He; cbn [isInitialized audioEngine] in He.
  rewrite Hc in He. injection He as <-.
  destruct (noiseBuffer_bounded (random h) (2 * sampleRate c) Hd) as [HL Hall].
  eexists. split; [reflexivity |]. cbn [buffer].
  split; [exact HL |].
  intros i Hi. destruct (Hall i Hi) as [r [_ [_ [Hload Habs]]]].
  now exists (r * 3.5).
Qed.

Lemma C9_witness :
  (forall i, (i < 4)%nat ->
             exists u, (fun _ : nat => Fin 0.5) i = Fin u /\ 0 <= u <= 1)
  /\ length (output (noiseBuffer (fun _ => Fin 0.5) 4)) = 4%nat.
Proof.
  assert (H : forall i, (i < 4)%nat ->
                exists u, (fun _ : nat => Fin 0.5) i = Fin u /\ 0 <= u <= 1)
    by (intros i _; exists 0.5; split; [reflexivity | lra]).
  split; [exact H |].
  apply (proj1 (proj1 C9_noise_samples_bounded (fun _ => Fin 0.5) 4%nat H)).
Defined.

End Audio.

(** ** The session statistics *)

Section Stats.

Import App.

Lemma updateStats_above (v : number) (s : SessionStats) :
  gt v (Fin 0.05) = true ->
  updateStats v s
  = {| totalVelocity := (totalVelocity s + v)%js;
       peakVelocity := if gt v (peakVelocity s) then v else peakVelocity s;
       samples := S (samples s);
       startTime := startTime s |}.
Proof. intros H. unfold updateStats. now rewrite H. Qed.

Lemma updateStats_below (v : number) (s : SessionStats) :
  gt v (Fin 0.05) = false -> updateStats v s = s.
Proof. intros H. unfold updateStats. now rewrite H. Qed.

(** C6. A smoothed velocity is recorded only when it is strictly greater
    than 0.05 (and the application is [ACTIVE]): the sample count is then
    incremented, the velocity added to the running sum, and the peak raised
    to it when it exceeds the peak; otherwise the statistics are unchanged.
    At the end of the session the average is the sum divided by the count
    when the count is positive and 0 otherwise, the peak is passed as it is,
    and the duration is the elapsed time divided by 1000. *)
Theorem C6_record_and_finalize :
  (forall (v : R) s,
      0.05 < v ->
      statsEffect ACTIVE (Fin v) s
      = {| totalVelocity := (totalVelocity s + Fin v)%js;
           peakVelocity :=
             if gt (Fin v) (peakVelocity s) then Fin v else peakVelocity s;
           samples := S (samples s);
           startTime := startTime s |})
  /\ (forall (v : R) s, v <= 0.05 -> statsEffect ACTIVE (Fin v) s = s)
  /\ (forall v s, gt v (Fin 0.05) = false -> statsEffect ACTIVE v s = s)
  /\ (forall a v s, a <> ACTIVE -> statsEffect a v s = s)
  /\ (forall (v p : R), gt (Fin v) (Fin p) = true <-> p < v)
  /\ (forall now s,
        (0 < samples s)%nat ->
        handleEndSession_summary now s
        = {| averageSpeed := (totalVelocity s / Fin (INR (samples s)))%js;
             peakIntensity := peakVelocity s;
             duration := ((now - startTime s) / Fin 1000)%js |})
  /\ (forall now s,
        samples s = 0%nat ->
        handleEndSession_summary now s
        = {| averageSpeed := Fin 0;
             peakIntensity := peakVelocity s;
             duration := ((now - startTime s) / Fin 1000)%js |})
  /\ (forall (t0 t1 : R) s,
        startTime s = Fin t0 ->
        duration (handleEndSession_summary (Fin t1) s) = Fin ((t1 - t0) / 1000)).
Proof.
  split.
  { intros v s Hv. unfold statsEffect; cbn [AppState_eqb].
    apply updateStats_above. now apply gt_finite. }
  split.
  { intros v s Hv. unfold statsEffect; cbn [AppState_eqb].
    apply updateStats_below. now apply gt_finite_false. }
  split.
  { intros v s Hv. unfold statsEffect; cbn [AppState_eqb].
    now apply updateStats_below. }
  split.
  { intros a v s Ha. unfold statsEffect.
    destruct a; try reflexivity. now contradiction Ha. }
  split; [exact gt_finite |].
  split.
  { intros now s Hn. unfold handleEndSession_summary.
    apply Nat.ltb_lt in Hn. now rewrite Hn. }
  split.
  { intros now s Hn. unfold handleEndSession_summary. now rewrite Hn. }
  intros t0 t1 s Hs. unfold handleEndSession_summary; cbn [duration].
  rewrite Hs, sub_finite. apply div_finite. lra.
Qed.

Lemma C6_witness :
  0.05 < 0.4
  /\ statsEffect ACTIVE (Fin 0.4)
       (handleStart_stats (Fin 0)
          {| totalVelocity := NaN; peakVelocity := NaN; samples := 7;
             startTime := NaN |})
     = {| totalVelocity := (Fin 0 + Fin 0.4)%js;
          peakVelocity := if gt (Fin 0.4) (Fin 0) then Fin 0.4 else Fin 0;
          samples := 1;
          startTime := Fin 0 |}.
Proof.
  split; [lra |].
  apply (proj1 C6_record_and_finalize 0.4). lra.
Defined.




Lemma recordAll_finite (now : number) (vs : list R) (s : SessionStats) :
  exists t p,
    totalVelocity (recordAll now (map Fin vs) s) = Fin t
    /\ peakVelocity (recordAll now (map Fin vs) s) = Fin p.
Proof.
  unfold recordAll.
  assert (H0 : exists t p,
             totalVelocity (handleStart_stats now s) = Fin t
             /\ peakVelocity (handleStart_stats now s) = Fin p)
    by (exists 0, 0; split; reflexivity).
  revert H0. generalize (handleStart_stats now s) as st.
  induction vs as [| v vs IH]; intros st Hst.
  - exact Hst.
  - cbn [map fold_left]. apply IH.
    destruct Hst as [t [p [Ht Hp]]]. unfold updateStats.
    destruct (gt (Fin v) (Fin 0.05)); [| now exists t, p].
    cbn [totalVelocity peakVelocity]. rewrite Ht, Hp.
    destruct (gt (Fin v) (Fin p)); eexists; eexists; split; reflexivity.
Qed.

End Stats.

(** ** The particle generator *)

Lemma pow_finite (u : R) (n : nat) : Num.pow (Fin u) n = Fin (u ^ n).
Proof.
  induction n as [| n IH]; [reflexivity |].
  cbn [Num.pow]. rewrite IH. reflexivity.
Qed.

Lemma cube_le (u : R) : 0 <= u <= 1 -> u ^ 3 <= u ^ 1.
Proof.
  intros H. simpl. assert (H2 : u * u <= 1) by nra. nra.
Qed.

Lemma cube_lt (u : R) : 0 < u < 1 -> u ^ 3 < u ^ 1.
Proof.
  intros H. simpl. assert (H2 : u * u < 1) by nra. nra.
Qed.

Section Galaxy.

Import GalaxyScene.

Variables (p : Parameters) (rn rd : R) (draws : nat -> R).
Hypothesis randomness_finite : randomness p = Fin rn.
Hypothesis radius_finite : radius p = Fin rd.

Lemma randomOffset_finite (power k : nat) (r : R) :
  randomOffset (withPower power p) (finiteSource draws) k (Fin r)
  = Fin (offsetR power rn r (draws k) (draws (S k))).
Proof.
  unfold randomOffset, finiteSource, offsetR, lt.
  cbn [randomnessPower randomness withPower gt].
  rewrite randomness_finite, pow_finite.
  destruct (Rltb (draws (S k)) 0.5); reflexivity.
Qed.

Lemma offset_particle (power : nat) (a : Axis) (i : nat) :
  offset a (particle (withPower power p) (finiteSource draws) i)
  = Fin (offsetR power rn (draws (7 * i)%nat * rd)
                 (draws (magnitudeDraw a i)) (draws (S (magnitudeDraw a i)))).
Proof.
  destruct a; unfold particle;
    cbn [offset randomX randomY randomZ magnitudeDraw];
    change (radius (withPower power p)) with (radius p);
    change (finiteSource draws (7 * i)%nat) with (Fin (draws (7 * i)%nat));
    rewrite radius_finite, mul_finite;
    apply randomOffset_finite.
Qed.

Lemma abs_offsetR (power : nat) (r u w : R) :
  0 <= u -> Rabs (offsetR power rn r u w) = u ^ power * Rabs (rn * r).
Proof.
  intros Hu. unfold offsetR.
  replace (u ^ power * (if Rltb w 0.5 then 1 else -1) * rn * r)
    with ((if Rltb w 0.5 then 1 else -1) * (u ^ power * (rn * r))) by ring.
  rewrite Rabs_mult, Rabs_mult.
  rewrite (Rabs_pos_eq (u ^ power)) by (apply pow_le; exact Hu).
  destruct (Rltb w 0.5).
  - rewrite Rabs_R1. ring.
  - rewrite (Rabs_left (-1)) by lra. ring.
Qed.

Hypothesis draws_range : forall k, 0 <= draws k < 1.

Lemma abs_offsetR_le (r u w : R) :
  0 <= u < 1 -> Rabs (offsetR 3 rn r u w) <= Rabs (offsetR 1 rn r u w).
Proof.
  intros Hu. rewrite !abs_offsetR by lra.
  apply Rmult_le_compat_r; [apply Rabs_pos | apply cube_le; lra].
Qed.

Lemma abs_offsetR_lt (r u w : R) :
  0 < u < 1 -> rn * r <> 0 ->
  Rabs (offsetR 3 rn r u w) < Rabs (offsetR 1 rn r u w).
Proof.
  intros Hu Hr. rewrite !abs_offsetR by lra.
  apply Rmult_lt_compat_r; [now apply Rabs_pos_lt | now apply cube_lt].
Qed.

Lemma absTotalR_le (l : list nat) :
  absTotalR 3 rn rd draws l <= absTotalR 1 rn rd draws l.
Proof.
  induction l as [| i l IH]; [apply Rle_refl |].
  unfold absTotalR in *. cbn [fold_right].
  pose proof (abs_offsetR_le (draws (7 * i)%nat * rd)
                (draws (magnitudeDraw AxisX i))
                (draws (S (magnitudeDraw AxisX i))) (draws_range _)).
  pose proof (abs_offsetR_le (draws (7 * i)%nat * rd)
                (draws (magnitudeDraw AxisY i))
                (draws (S (magnitudeDraw AxisY i))) (draws_range _)).
  pose proof (abs_offsetR_le (draws (7 * i)%nat * rd)
                (draws (magnitudeDraw AxisZ i))
                (draws (S (magnitudeDraw AxisZ i))) (draws_range _)).
  cbv zeta. lra.
Qed.

Lemma absTotalR_lt (l : list nat) (i : nat) (a : Axis) :
  In i l ->
  0 < draws (magnitudeDraw a i) ->
  rn * (draws (7 * i)%nat * rd) <> 0 ->
  absTotalR 3 rn rd draws l < absTotalR 1 rn rd draws l.
Proof.
  intros Hin Hu Hr.
  induction l as [| j l IH]; [contradiction Hin |].
  pose proof (absTotalR_le l) as Hrest.
  unfold absTotalR in *. cbn [fold_right]. cbv zeta.
  pose proof (abs_offsetR_le (draws (7 * j)%nat * rd)
                (draws (magnitudeDraw AxisX j))
                (draws (S (magnitudeDraw AxisX j))) (draws_range _)) as HX.
  pose proof (abs_offsetR_le (draws (7 * j)%nat * rd)
                (draws (magnitudeDraw AxisY j))
                (draws (S (magnitudeDraw AxisY j))) (draws_range _)) as HY.
  pose proof (abs_offsetR_le (draws (7 * j)%nat * rd)
                (draws (magnitudeDraw AxisZ j))
                (draws (S (magnitudeDraw AxisZ j))) (draws_range _)) as HZ.
  destruct Hin as [-> | Hin].
  - assert (Hs : Rabs (offsetR 3 rn (draws (7 * i)%nat * rd)
                         (draws (magnitudeDraw a i))
                         (draws (S (magnitudeDraw a i))))
                 < Rabs (offsetR 1 rn (draws (7 * i)%nat * rd)
                           (draws (magnitudeDraw a i))
                           (draws (S (magnitudeDraw a i))))).
    { apply abs_offsetR_lt; [| exact Hr].
      split; [exact Hu | apply draws_range]. }
    destruct a; lra.
  - specialize (IH Hin). lra.
Qed.

Lemma sum_absOffsets (power : nat) (l : list nat) :
  sum (flat_map (fun q => [Num.abs (randomX q); Num.abs (randomY q);
                           Num.abs (randomZ q)])
                (map (particle (withPower power p) (finiteSource draws)) l))
  = Fin (absTotalR power rn rd draws l).
Proof.
  induction l as [| i l IH]; [reflexivity |].
  cbn [map flat_map app]. unfold sum in *. cbn [fold_right]. rewrite IH.
  pose proof (offset_particle power AxisX i) as HX.
  pose proof (offset_particle power AxisY i) as HY.
  pose proof (offset_particle power AxisZ i) as HZ.
  cbn [offset] in HX, HY, HZ. rewrite HX, HY, HZ.
  reflexivity.
Qed.

Lemma meanAbsOffset_finite (power : nat) :
  (0 < count p)%nat ->
  meanAbsOffset (withPower power p) (finiteSource draws)
  = Fin (absTotalR power rn rd draws (seq 0 (count p)) / INR (3 * count p)).
Proof.
  intros Hc. unfold meanAbsOffset, absOffsets, particles.
  cbn [count withPower]. rewrite sum_absOffsets.
  apply div_finite. apply not_0_INR. lia.
Qed.

End Galaxy.

Section GalaxyProperties.

Import GalaxyScene.

Lemma drawsWithZero_range (k : nat) : 0 <= drawsWithZero k < 1.
Proof. unfold drawsWithZero. destruct (k =? 1)%nat; lra. Qed.

(** C7, refuted: when the magnitude draw of an axis is 0 (here draw 1, the
    X axis of particle 0, every other draw being 0.5), the offset is 0 for
    power 1 and for power 3, so that it does not decrease. *)
Lemma C7_counterexample :
  offset AxisX (particle (withPower 1 parameters) (finiteSource drawsWithZero) 0)
  = Fin 0
  /\ offset AxisX (particle (withPower 3 parameters) (finiteSource drawsWithZero) 0)
     = Fin 0
  /\ ~ power_three_shrinks_every_offset.
Proof.
  assert (E : forall power,
             offset AxisX (particle (withPower (S power) parameters)
                                    (finiteSource drawsWithZero) 0)
             = Fin 0).
  { intros power.
    rewrite (offset_particle parameters 0.2 5 drawsWithZero eq_refl eq_refl).
    f_equal. unfold offsetR. cbn [magnitudeDraw Nat.mul Nat.add].
    unfold drawsWithZero at 1. cbn [Nat.eqb].
    change (0 ^ S power) with (0 * 0 ^ power). ring. }
  split; [apply E |]. split; [apply E |].
  intros H.
  destruct (H drawsWithZero drawsWithZero_range 0%nat AxisX)
    as [a1 [a3 [H1 [H3 Hlt]]]].
  rewrite E in H1, H3. injection H1 as <-. injection H3 as <-.
  lra.
Qed.

(** With a source that only returns 0 all offsets vanish, and the mean
    absolute offset is the same for both powers. *)
Lemma absTotalR_zero_draws (power : nat) (rn rd : R) (l : list nat) :
  absTotalR (S power) rn rd (fun _ => 0) l = 0.
Proof.
  induction l as [| i l IH]; [reflexivity |].
  unfold absTotalR in *. cbn [fold_right]. cbv zeta. rewrite IH.
  rewrite !abs_offsetR by lra.
  change (0 ^ S power) with (0 * 0 ^ power). ring.
Qed.

Lemma count_parameters_pos : (0 < count parameters)%nat.
Proof. apply Nat.ltb_lt. vm_compute. reflexivity. Qed.

Lemma mean_equal_on_zero_draws :
  meanAbsOffset (withPower 3 parameters) (finiteSource (fun _ => 0))
  = meanAbsOffset (withPower 1 parameters) (finiteSource (fun _ => 0)).
Proof.
  rewrite !(meanAbsOffset_finite parameters 0.2 5 (fun _ => 0) eq_refl eq_refl)
    by exact count_parameters_pos.
  now rewrite !absTotalR_zero_draws.
Qed.

(** C7, as the code has it.  With the same draws of [[0, 1)] and finite
    [randomness] and [radius], power 3 never gives an offset of larger
    absolute value than power 1, and gives a strictly smaller one on every
    axis whose magnitude draw is not 0 when [randomness * r] is not 0, [r]
    being the radius of the particle.  Hence the mean absolute offset for
    power 3 is at most the one for power 1, and strictly smaller as soon as
    one axis of one particle has such draws. *)
Theorem C7_power_three_tightens :
  forall p rn rd draws,
    randomness p = Fin rn -> radius p = Fin rd ->
    (forall k, 0 <= draws k < 1) ->
    (forall i a,
        exists a1 a3,
          offset a (particle (withPower 1 p) (finiteSource draws) i) = Fin a1
          /\ offset a (particle (withPower 3 p) (finiteSource draws) i) = Fin a3
          /\ Rabs a3 <= Rabs a1
          /\ (0 < draws (magnitudeDraw a i) ->
              rn * (draws (7 * i)%nat * rd) <> 0 ->
              Rabs a3 < Rabs a1))
    /\ ((0 < count p)%nat ->
        exists m1 m3,
          meanAbsOffset (withPower 1 p) (finiteSource draws) = Fin m1
          /\ meanAbsOffset (withPower 3 p) (finiteSource draws) = Fin m3
          /\ m3 <= m1
          /\ (forall i a,
                 (i < count p)%nat ->
                 0 < draws (magnitudeDraw a i) ->
                 rn * (draws (7 * i)%nat * rd) <> 0 ->
                 m3 < m1)).
Proof.
  intros p rn rd draws Hrn Hrd Hdraws. split.
  - intros i a. do 2 eexists.
    split; [apply (offset_particle p rn rd draws Hrn Hrd) |].
    split; [apply (offset_particle p rn rd draws Hrn Hrd) |].
    split.
    + apply abs_offsetR_le. apply Hdraws.
    + intros Hu Hr. apply abs_offsetR_lt; [| exact Hr].
      split; [exact Hu | apply Hdraws].
  - intros Hc. do 2 eexists.
    split; [apply (meanAbsOffset_finite p rn rd draws Hrn Hrd 1 Hc) |].
    split; [apply (meanAbsOffset_finite p rn rd draws Hrn Hrd 3 Hc) |].
    assert (Hn : 0 < INR (3 * count p)) by (apply lt_0_INR; lia).
    assert (Hinv : 0 < / INR (3 * count p)) by now apply Rinv_0_lt_compat.
    split.
    + unfold Rdiv. apply Rmult_le_compat_r; [lra |].
      now apply absTotalR_le.
    + intros i a Hi Hu Hr. unfold Rdiv.
      apply Rmult_lt_compat_r; [exact Hinv |].
      apply (absTotalR_lt rn rd draws Hdraws _ i a); [| exact Hu | exact Hr].
      apply in_seq. lia.
Qed.

Lemma C7_witness :
  randomness parameters = Fin 0.2 /\ radius parameters = Fin 5
  /\ (forall k : nat, 0 <= (fun _ : nat => 0.5) k < 1)
  /\ forall i a,
      exists a1 a3,
        offset a (particle (withPower 1 parameters)
                           (finiteSource (fun _ => 0.5)) i) = Fin a1
        /\ offset a (particle (withPower 3 parameters)
                              (finiteSource (fun _ => 0.5)) i) = Fin a3
        /\ Rabs a3 <= Rabs a1
        /\ (0 < 0.5 -> 0.2 * (0.5 * 5) <> 0 -> Rabs a3 < Rabs a1).
Proof.
  assert (H : forall k : nat, 0 <= (fun _ : nat => 0.5) k < 1)
    by (intros k; lra).
  split; [reflexivity |]. split; [reflexivity |]. split; [exact H |].
  apply (proj1 (C7_power_three_tightens parameters 0.2 5 (fun _ => 0.5)
                  eq_refl eq_refl H)).
Defined.

End GalaxyProperties.

(** ** The frame callback over a run of frames *)

Lemma min_capped (a : number) (b : R) :
  Num.min a (Fin b) = NaN \/ le (Num.min a (Fin b)) (Fin b) = true.
Proof.
  destruct a as [r | | |]; cbn [Num.min le].
  - right. rewrite Rltb_false; [reflexivity | apply Rmin_r].
  - right. rewrite Rltb_false; [reflexivity | apply Rle_refl].
  - right. reflexivity.
  - left. reflexivity.
Qed.

Section MotionRuns.

Import MotionController MotionLoop.

Lemma predictWebcam_capped landmarks t last f v :
  predictWebcam landmarks t last = Ok f ->
  onVelocityChange f = Some v ->
  v = NaN \/ le v (Fin 1.5) = true.
Proof.
  unfold predictWebcam. intros H Hv.
  destruct landmarks as [[| [| wrist rest] hands] |];
    try discriminate H; injection H as <-; cbn [onVelocityChange] in Hv.
  - injection Hv as <-. right. cbn [le]. rewrite Rltb_false by lra. reflexivity.
  - destruct last as [l |]; [| discriminate Hv].
    injection Hv as <-. unfold velocityOf. apply min_capped.
  - injection Hv as <-. right. cbn [le]. rewrite Rltb_false by lra. reflexivity.
Qed.

(** X1. Whatever the references, the detector's result, the time stamps
    and the stored sample are, a value [predictWebcam] passes to
    [onVelocityChange] is [NaN] or at most 1.5. *)
Theorem X1_emitted_velocity_is_capped :
  forall refs isActive startTimeMs currentTime last c v,
    predictWebcamCall refs isActive startTimeMs currentTime last = Ok c ->
    emitted c = Some v ->
    v = NaN \/ le v (Fin 1.5) = true.
Proof.
  intros refs isActive startTimeMs currentTime last c v H Hv.
  unfold predictWebcamCall in H.
  destruct (handLandmarkerRef refs) as [detector |];
    [| injection H as <-; discriminate Hv].
  destruct (videoRef refs) as [video |];
    [| injection H as <-; discriminate Hv].
  destruct ((videoWidth video =? 0) || (videoHeight video =? 0))%nat;
    [injection H as <-; discriminate Hv |].
  destruct (predictWebcam (detector video startTimeMs) currentTime last)
    as [f |] eqn:Hf; [| discriminate H].
  injection H as <-. cbn [emitted] in Hv.
  exact (predictWebcam_capped _ _ _ _ _ Hf Hv).
Qed.

Lemma X1_witness :
  exists c v,
    predictWebcamCall (refs (observe (100, Some (0.3, 0.1)))) true
                      (Fin 100) (Fin 100) (Some (sample 0.1 0.1 0)) = Ok c
    /\ emitted c = Some v
    /\ (v = NaN \/ le v (Fin 1.5) = true).
Proof.
  do 2 eexists. split; [reflexivity |]. split; [reflexivity |].
  apply (X1_emitted_velocity_is_capped
           (refs (observe (100, Some (0.3, 0.1)))) true (Fin 100) (Fin 100)
           (Some (sample 0.1 0.1 0)) _ _ eq_refl eq_refl).
Defined.

Lemma step_observe_none (t : R) (s : Tracker) :
  step (observe (t, None)) s = Ok {| velocity := Fin 0; lastHand := None |}.
Proof. reflexivity. Qed.

Lemma step_observe_hand (t a b : R) (s : Tracker) :
  step (observe (t, Some (a, b))) s
  = Ok {| velocity := match lastHand s with
                      | Some l => velocityOf l (landmark a b 0) (Fin t)
                      | None => velocity s
                      end;
          lastHand := Some (sample a b t) |}.
Proof.
  unfold step, observe, predictWebcamCall; cbn.
  destruct (lastHand s); reflexivity.
Qed.

(** X2. When the detector loses the hand and finds it again, the frame that
    finds it again emits nothing: after the two frames the velocity is 0 and
    the stored sample is the new one, whatever the state, the positions and
    the times were. *)
Theorem X2_reacquired_hand_gives_no_velocity :
  forall (s : Tracker) (t1 t2 a b : R),
    run [observe (t1, None); observe (t2, Some (a, b))] s
    = Ok {| velocity := Fin 0; lastHand := Some (sample a b t2) |}.
Proof.
  intros s t1 t2 a b. cbn [run].
  rewrite step_observe_none, step_observe_hand. reflexivity.
Qed.

(** The invariant of a run of observations in increasing order of time. *)
Lemma run_observe_inv (obs : list (R * option (R * R))) :
  forall t0 s,
    laterThan t0 obs -> storedBefore t0 s ->
    (exists v, velocity s = Fin v /\ 0 <= v <= 1.5) ->
    exists s',
      run (map observe obs) s = Ok s'
      /\ exists v, velocity s' = Fin v /\ 0 <= v <= 1.5.
Proof.
  induction obs as [| [t hand] obs IH]; intros t0 s Hlater Hstored Hv.
  - exists s. cbn. auto.
  - destruct Hlater as [Ht Hrest]. cbn [fst] in Ht, Hrest.
    assert (Hstep : exists s1,
               step (observe (t, hand)) s = Ok s1
               /\ storedBefore t s1
               /\ exists v, velocity s1 = Fin v /\ 0 <= v <= 1.5).
    { destruct hand as [[a b] |].
      - rewrite step_observe_hand. eexists. split; [reflexivity |]. split.
        + cbn. exists a, b, t. split; [reflexivity | lra].
        + cbn [velocity]. unfold storedBefore in Hstored.
          destruct (lastHand s) as [l |]; [| exact Hv].
          destruct Hstored as [a0 [b0 [tl [-> Htl]]]].
          rewrite velocityOf_finite by lra. eexists. split; [reflexivity |].
          split.
          * apply Rmin_glb; [| lra].
            replace (euclideanDistance a0 b0 a b / ((t - tl) / 1000) * 2)
              with (2 * euclideanDistance a0 b0 a b / ((t - tl) / 1000))
              by (unfold Rdiv; ring).
            apply scaled_velocity_nonneg;
              [apply euclideanDistance_nonneg | lra].
          * apply Rmin_r.
      - rewrite step_observe_none. eexists. split; [reflexivity |].
        split; [exact I |]. exists 0. split; [reflexivity | lra]. }
    destruct Hstep as [s1 [Hs1 [Hst1 Hv1]]].
    destruct (IH t s1 Hrest Hst1 Hv1) as [s' [Hrun Hv']].
    exists s'. cbn [map run]. rewrite Hs1. split; [exact Hrun | exact Hv'].
Qed.

(** X3. From the mounted controller, over any run of frames taken at
    strictly increasing times on a ready video, each with no hand or one
    hand at a finite position, no call throws and the velocity of the
    application is a finite number between 0 and 1.5 at the end. *)
Theorem X3_velocity_stays_in_range :
  forall (obs : list (R * option (R * R))) (t0 : R),
    laterThan t0 obs ->
    exists s,
      run (map observe obs) mounted = Ok s
      /\ exists v, velocity s = Fin v /\ 0 <= v <= 1.5.
Proof.
  intros obs t0 Hlater.
  destruct (run_observe_inv obs t0 mounted Hlater I)
    as [s [Hrun Hv]].
  - exists 0. split; [reflexivity | lra].
  - exists s. split; assumption.
Qed.

Lemma X3_witness :
  laterThan 0 [(10, Some (0.1, 0.1)); (20, None); (30, Some (0.5, 0.5))]
  /\ exists s,
      run (map observe [(10, Some (0.1, 0.1)); (20, None); (30, Some (0.5, 0.5))])
          mounted = Ok s
      /\ exists v, velocity s = Fin v /\ 0 <= v <= 1.5.
Proof.
  assert (H : laterThan 0 [(10, Some (0.1, 0.1)); (20, None);
                           (30, Some (0.5, 0.5))])
    by (cbn; repeat split; lra).
  split; [exact H |].
  exact (X3_velocity_stays_in_range _ 0 H).
Defined.

(** X4. For two finite samples with [t1 < t2], the value emitted is 1.5
    exactly when the wrist moved at 0.75 units per second or more, and it is
    twice the speed below that; a wrist that did not move gives 0. *)
Theorem X4_clamp_threshold :
  forall x1 y1 t1 x2 y2 z2 t2,
    t1 < t2 ->
    let d := euclideanDistance x1 y1 x2 y2 in
    let dt := (t2 - t1) / 1000 in
    (velocityOf (sample x1 y1 t1) (landmark x2 y2 z2) (Fin t2) = Fin 1.5
     <-> 0.75 * dt <= d)
    /\ (d <= 0.75 * dt ->
        velocityOf (sample x1 y1 t1) (landmark x2 y2 z2) (Fin t2)
        = Fin (2 * (d / dt)))
    /\ (x2 = x1 -> y2 = y1 ->
        velocityOf (sample x1 y1 t1) (landmark x2 y2 z2) (Fin t2) = Fin 0).
Proof.
  intros x1 y1 t1 x2 y2 z2 t2 Ht d dt.
  assert (Hdt : 0 < dt) by (unfold dt; lra).
  assert (Hd : 0 <= d) by apply euclideanDistance_nonneg.
  rewrite velocityOf_finite by lra. fold d. fold dt.
  assert (Hspeed : d / dt * 2 <= 1.5 <-> d <= 0.75 * dt).
  { split; intros H.
    - apply Rmult_le_reg_r with (/ dt); [now apply Rinv_0_lt_compat |].
      rewrite Rmult_assoc, Rinv_r by lra. unfold Rdiv in H. lra.
    - assert (H' : d / dt <= 0.75).
      { apply Rmult_le_reg_r with dt; [exact Hdt |].
        unfold Rdiv. rewrite Rmult_assoc, Rinv_l by lra. lra. }
      lra. }
  assert (Hfast : 1.5 <= d / dt * 2 <-> 0.75 * dt <= d).
  { split; intros H.
    - assert (H' : 0.75 <= d / dt) by lra.
      apply Rmult_le_compat_r with (r := dt) in H'; [| lra].
      unfold Rdiv in H'. rewrite Rmult_assoc, Rinv_l in H' by lra. lra.
    - assert (H' : 0.75 <= d / dt).
      { apply Rmult_le_reg_r with dt; [exact Hdt |].
        unfold Rdiv. rewrite Rmult_assoc, Rinv_l by lra. lra. }
      lra. }
  split; [| split].
  - split; intros H.
    + injection H as H. apply Hfast.
      destruct (Rle_dec (d / dt * 2) 1.5) as [Hle | Hgt].
      * rewrite Rmin_left in H by exact Hle. lra.
      * lra.
    + f_equal. apply Rmin_right. now apply Hfast.
  - intros H. f_equal. rewrite Rmin_left by now apply Hspeed. ring.
  - intros Hx Hy. f_equal.
    assert (Hz : d = 0) by (apply euclideanDistance_zero; split; assumption).
    rewrite Hz. unfold Rdiv. rewrite Rmult_0_l, Rmult_0_l.
    apply Rmin_left. lra.
Qed.

Lemma X4_witness :
  0 < 100
  /\ (velocityOf (sample 0.1 0.1 0) (landmark 0.3 0.1 0) (Fin 100) = Fin 1.5
      <-> 0.75 * ((100 - 0) / 1000) <= euclideanDistance 0.1 0.1 0.3 0.1).
Proof.
  split; [lra |].
  apply (X4_clamp_threshold 0.1 0.1 0 0.3 0.1 0 100). lra.
Defined.

End MotionRuns.

(** ** The smoothed velocity over the frames of a session *)

Section SmoothRuns.

Import App AppSession.

Lemma smoothRun_cons (v : number) (vs : list number) (prev : number) :
  smoothRun (v :: vs) prev = smoothRun vs (smooth v prev).
Proof. reflexivity. Qed.

Lemma smoothRun_app (pre post : list number) (prev : number) :
  smoothRun (pre ++ post) prev = smoothRun post (smoothRun pre prev).
Proof. unfold smoothRun. apply fold_left_app. Qed.

Lemma smoothRun_NaN (vs : list number) : smoothRun vs NaN = NaN.
Proof.
  induction vs as [| v vs IH]; [reflexivity |].
  now rewrite smoothRun_cons, smooth_NaN_absorbing.
Qed.

(** X5. With varying targets: when the state and every velocity are finite
    numbers of an interval [[lo, hi]], the smoothed velocity is a finite
    number of [[lo, hi]] after any number of frames. *)
Theorem X5_smoothed_velocity_stays_in_interval :
  forall (lo hi : R) (vs : list R) (s : R),
    lo <= s <= hi ->
    Forall (fun v => lo <= v <= hi) vs ->
    exists r, smoothRun (map Fin vs) (Fin s) = Fin r /\ lo <= r <= hi.
Proof.
  intros lo hi vs. induction vs as [| v vs IH]; intros s Hs Hvs.
  - exists s. split; [reflexivity | exact Hs].
  - inversion Hvs as [| v' vs' Hv Hrest]; subst.
    cbn [map]. rewrite smoothRun_cons, smooth_finite.
    apply IH; [lra | exact Hrest].
Qed.

Lemma X5_witness :
  0 <= 0 <= 1.5
  /\ Forall (fun v => 0 <= v <= 1.5) [1.5; 0; 0.3]
  /\ exists r, smoothRun (map Fin [1.5; 0; 0.3]) (Fin 0) = Fin r /\ 0 <= r <= 1.5.
Proof.
  assert (H0 : 0 <= 0 <= 1.5) by lra.
  assert (H1 : Forall (fun v => 0 <= v <= 1.5) [1.5; 0; 0.3])
    by (repeat constructor; lra).
  split; [exact H0 |]. split; [exact H1 |].
  exact (X5_smoothed_velocity_stays_in_interval 0 1.5 [1.5; 0; 0.3] 0 H0 H1).
Defined.

(** X6. The smoothing forgets where it started: under the same finite
    velocities, two runs started from [a] and from [b] end at finite values
    whose difference is [(a - b) * 0.9 ^ n] after [n] frames. *)
Theorem X6_smoothing_forgets_its_start :
  forall (vs : list R) (a b : R),
    exists ra rb,
      smoothRun (map Fin vs) (Fin a) = Fin ra
      /\ smoothRun (map Fin vs) (Fin b) = Fin rb
      /\ ra - rb = (a - b) * 0.9 ^ length vs.
Proof.
  induction vs as [| v vs IH]; intros a b.
  - exists a, b. repeat split. simpl. ring.
  - cbn [map length]. rewrite !smoothRun_cons, !smooth_finite.
    destruct (IH (a + 0.1 * (v - a)) (b + 0.1 * (v - b)))
      as [ra [rb [Ha [Hb Hd]]]].
    exists ra, rb. split; [exact Ha |]. split; [exact Hb |].
    rewrite Hd, pow_09_step.
    replace (a + 0.1 * (v - a) - (b + 0.1 * (v - b))) with ((a - b) * 0.9)
      by lra.
    ring.
Qed.

(** X7. Two samples with the same position and the same time stamp make
    the controller emit [NaN] ([0 / 0]).  From the frame that sees a [NaN]
    velocity on, the smoothed velocity is [NaN] whatever the velocities
    before and after are; a [NaN] smoothed velocity is never recorded in the
    statistics, and the targets [updateWind] computes from it are [NaN]. *)
Theorem X7_NaN_velocity_is_absorbing :
  (forall (s : MotionLoop.Tracker) (t a b : R),
      MotionLoop.run [MotionLoop.observe (t, Some (a, b));
                      MotionLoop.observe (t, Some (a, b))] s
      = Ok {| MotionLoop.velocity := NaN;
              MotionLoop.lastHand := Some (MotionController.sample a b t) |})
  /\ (forall pre post prev, smoothRun (pre ++ NaN :: post) prev = NaN)
  /\ (forall st, updateStats NaN st = st)
  /\ AudioEngine.targetGain NaN = NaN
  /\ AudioEngine.targetFreq NaN = NaN.
Proof.
  split.
  { intros s t a b. cbn [MotionLoop.run].
    rewrite step_observe_hand. rewrite step_observe_hand.
    cbn [MotionLoop.lastHand].
    rewrite velocityOf_same_time_still by reflexivity. reflexivity. }
  split.
  { intros pre post prev.
    rewrite smoothRun_app, smoothRun_cons, smooth_NaN_target.
    apply smoothRun_NaN. }
  repeat split.
Qed.

End SmoothRuns.

(** ** What a session records *)

Section SessionRecords.

Import App AppSession.

Lemma recorded_cons (v : R) (vs : list R) :
  recorded (v :: vs) = if Rltb 0.05 v then v :: recorded vs else recorded vs.
Proof. reflexivity. Qed.

Lemma recorded_above (vs : list R) (v : R) : In v (recorded vs) <-> In v vs /\ 0.05 < v.
Proof.
  unfold recorded. rewrite filter_In. now rewrite Rltb_spec.
Qed.

Lemma maxR_nonneg (l : list R) : 0 <= maxR l.
Proof.
  induction l as [| v l IH]; [apply Rle_refl |].
  cbn. apply Rle_trans with (maxR l); [exact IH | apply Rmax_r].
Qed.

Lemma maxR_ge (l : list R) (v : R) : In v l -> v <= maxR l.
Proof.
  induction l as [| w l IH]; intros H; [contradiction H |].
  cbn. destruct H as [-> | H].
  - apply Rmax_l.
  - apply Rle_trans with (maxR l); [now apply IH | apply Rmax_r].
Qed.

Lemma maxR_attained (l : list R) :
  l <> [] -> (forall v, In v l -> 0 < v) -> In (maxR l) l.
Proof.
  induction l as [| w l IH]; intros Hne Hpos; [contradiction Hne; reflexivity |].
  cbn [maxR fold_right]. fold (maxR l).
  destruct (Rle_dec w (maxR l)) as [Hle | Hgt].
  - rewrite Rmax_right by exact Hle.
    destruct l as [| w' l'].
    + cbn in Hle. specialize (Hpos w (or_introl eq_refl)). lra.
    + right. apply IH; [discriminate |].
      intros v Hv. apply Hpos. now right.
  - rewrite Rmax_left by lra. now left.
Qed.

Lemma peak_update (v p : R) :
  (if Rltb p v then Fin v else Fin p) = Fin (Rmax p v).
Proof.
  unfold Rltb, Rmax.
  destruct (Rlt_dec p v), (Rle_dec p v); try reflexivity; f_equal; lra.
Qed.

(** The statistics after updates with finite velocities, from finite
    statistics. *)
Lemma updates_closed_form (vs : list R) :
  forall (t p : R) (n : nat) (start : number),
    0 <= p ->
    fold_left (fun st v => updateStats v st) (map Fin vs)
      {| totalVelocity := Fin t; peakVelocity := Fin p; samples := n;
         startTime := start |}
    = {| totalVelocity := Fin (t + sumR (recorded vs));
         peakVelocity := Fin (Rmax p (maxR (recorded vs)));
         samples := n + length (recorded vs);
         startTime := start |}.
Proof.
  induction vs as [| v vs IH]; intros t p n start Hp.
  - cbn. rewrite Rmax_left by exact Hp.
    rewrite Rplus_0_r, Nat.add_0_r. reflexivity.
  - cbn [map fold_left]. rewrite recorded_cons. unfold updateStats.
    cbn [gt totalVelocity peakVelocity samples startTime].
    destruct (Rltb 0.05 v) eqn:Hv.
    + rewrite (peak_update v p), add_finite.
      rewrite IH by (apply Rle_trans with p; [exact Hp | apply Rmax_l]).
      cbn [sumR maxR fold_right length]. fold (sumR (recorded vs)).
      fold (maxR (recorded vs)).
      rewrite Rplus_assoc, Rmax_assoc, Nat.add_succ_r. reflexivity.
    + apply IH. exact Hp.
Qed.

Lemma recordAll_closed_form (start : number) (vs : list R) (s0 : SessionStats) :
  recordAll start (map Fin vs) s0
  = {| totalVelocity := Fin (sumR (recorded vs));
       peakVelocity := Fin (maxR (recorded vs));
       samples := length (recorded vs);
       startTime := start |}.
Proof.
  unfold recordAll, handleStart_stats.
  rewrite updates_closed_form by apply Rle_refl.
  rewrite Rplus_0_l, Rmax_right by apply maxR_nonneg. reflexivity.
Qed.

(** X8. After the reset of [handleStart], a session with finite smoothed
    velocities counts exactly those above 0.05, totals them and keeps their
    maximum (0 when there is none); nothing of the statistics from before
    the reset remains, and the start time is the one of the reset. *)
Theorem X8_statistics_of_a_session :
  forall (start : number) (vs : list R) (s0 : SessionStats),
    recordAll start (map Fin vs) s0
    = {| totalVelocity := Fin (sumR (recorded vs));
         peakVelocity := Fin (maxR (recorded vs));
         samples := length (recorded vs);
         startTime := start |}
    /\ (forall v, In v (recorded vs) <-> In v vs /\ 0.05 < v).
Proof.
  intros start vs s0. split.
  - apply recordAll_closed_form.
  - apply recorded_above.
Qed.

Lemma recorded_permutation (vs ws : list R) :
  Permutation vs ws -> Permutation (recorded vs) (recorded ws).
Proof.
  intros H. induction H as [| v vs ws H IH | v w vs | us vs ws H1 IH1 H2 IH2].
  - apply perm_nil.
  - rewrite !recorded_cons. destruct (Rltb 0.05 v); [now apply perm_skip | exact IH].
  - rewrite !recorded_cons.
    destruct (Rltb 0.05 v), (Rltb 0.05 w);
      try apply Permutation_refl. apply perm_swap.
  - now apply perm_trans with (recorded vs).
Qed.

Lemma sumR_permutation (l m : list R) : Permutation l m -> sumR l = sumR m.
Proof.
  intros H. induction H as [| v l m H IH | v w l | l m k H1 IH1 H2 IH2];
    cbn [sumR fold_right] in *.
  - reflexivity.
  - fold (sumR l). fold (sumR m). now rewrite IH.
  - ring.
  - now rewrite IH1.
Qed.

Lemma maxR_permutation (l m : list R) : Permutation l m -> maxR l = maxR m.
Proof.
  intros H. induction H as [| v l m H IH | v w l | l m k H1 IH1 H2 IH2];
    cbn [maxR fold_right] in *.
  - reflexivity.
  - fold (maxR l). fold (maxR m). now rewrite IH.
  - fold (maxR l). rewrite !Rmax_assoc, (Rmax_comm w v). reflexivity.
  - now rewrite IH1.
Qed.

(** X9. The statistics of a session do not depend on the order of the
    smoothed velocities (nor on the statistics before the reset): two
    sessions started at the same time whose finite velocities are a
    permutation of each other end with the same statistics. *)
Theorem X9_statistics_ignore_the_order :
  forall (start : number) (vs ws : list R) (s0 s1 : SessionStats),
    Permutation vs ws ->
    recordAll start (map Fin vs) s0 = recordAll start (map Fin ws) s1.
Proof.
  intros start vs ws s0 s1 H.
  rewrite !recordAll_closed_form.
  pose proof (recorded_permutation vs ws H) as Hp.
  rewrite (sumR_permutation _ _ Hp), (maxR_permutation _ _ Hp),
    (Permutation_length Hp).
  reflexivity.
Qed.

Lemma X9_witness :
  Permutation [0.2; 0.01; 0.9] [0.9; 0.2; 0.01]
  /\ recordAll (Fin 0) (map Fin [0.2; 0.01; 0.9]) (sessionStats loaded)
     = recordAll (Fin 0) (map Fin [0.9; 0.2; 0.01])
         {| totalVelocity := PosInf; peakVelocity := Fin 1; samples := 0;
            startTime := Fin 5 |}.
Proof.
  assert (H : Permutation [0.2; 0.01; 0.9] [0.9; 0.2; 0.01]).
  { apply perm_trans with [0.2; 0.9; 0.01].
    - apply perm_skip. apply perm_swap.
    - apply perm_swap. }
  split; [exact H |].
  exact (X9_statistics_ignore_the_order (Fin 0) _ _ _ _ H).
Defined.

(** X10. When a session with finite smoothed velocities has recorded a
    sample, the peak is one of the velocities recorded and no velocity
    recorded exceeds it. *)
Theorem X10_peak_is_the_largest_recorded :
  forall (start : number) (vs : list R) (s0 : SessionStats),
    (0 < samples (recordAll start (map Fin vs) s0))%nat ->
    exists p,
      peakVelocity (recordAll start (map Fin vs) s0) = Fin p
      /\ In p vs /\ 0.05 < p
      /\ forall v, In v vs -> 0.05 < v -> v <= p.
Proof.
  intros start vs s0. rewrite recordAll_closed_form.
  cbn [samples peakVelocity]. intros Hn.
  exists (maxR (recorded vs)). split; [reflexivity |].
  assert (Hin : In (maxR (recorded vs)) (recorded vs)).
  { apply maxR_attained.
    - intros E. rewrite E in Hn. cbn in Hn. lia.
    - intros v Hv. apply recorded_above in Hv. lra. }
  apply recorded_above in Hin. destruct Hin as [Hin Hgt].
  split; [exact Hin |]. split; [exact Hgt |].
  intros v Hv H05. apply maxR_ge. apply recorded_above. split; assumption.
Qed.

Lemma exampleStats_recorded : (0 < samples exampleStats)%nat.
Proof.
  unfold exampleStats. rewrite recordAll_closed_form. cbn [samples].
  rewrite !recorded_cons, !Rltb_true by lra. cbn. lia.
Qed.

Lemma X10_witness :
  (0 < samples exampleStats)%nat
  /\ exists p,
      peakVelocity exampleStats = Fin p
      /\ In p [0.2; 0.9] /\ 0.05 < p
      /\ forall v, In v [0.2; 0.9] -> 0.05 < v -> v <= p.
Proof.
  split; [exact exampleStats_recorded |].
  exact (X10_peak_is_the_largest_recorded (Fin 0) [0.2; 0.9]
           (sessionStats loaded) exampleStats_recorded).
Defined.



End SessionRecords.

(** ** The statistics in binary64 *)

Section Binary64Statistics.

Import PrimFloat.


End Binary64Statistics.

(** ** The audio engine over a session *)

Section AudioSessions.

Import AudioEngine AudioSession.

(** X11. [updateWind] never asks for a gain above 0.8: for every number the
    gain target is [NaN] or at most 0.8.  For an intensity between 0 and 1.5,
    the range of the velocities, the gain target is between 0 and 0.8 and the
    frequency target between 200 and 2450; it is above 1700 as soon as the
    intensity is above 1. *)
Theorem X11_audio_targets_ranges :
  (forall a : number, targetGain a = NaN \/ le (targetGain a) (Fin 0.8) = true)
  /\ (forall i : R,
        0 <= i <= 1.5 ->
        exists g f,
          targetGain (Fin i) = Fin g /\ targetFreq (Fin i) = Fin f
          /\ 0 <= g <= 0.8 /\ 200 <= f <= 2450
          /\ (1 < i -> 1700 < f)).
Proof.
  split.
  - intros a. unfold targetGain. apply min_capped.
  - intros i Hi. exists (Rmin (i * 1.5) 0.8), (200 + i * 1500).
    split; [reflexivity |]. split; [reflexivity |].
    split; [| split; [lra | intros H; lra]].
    split; [apply Rmin_glb; lra | apply Rmin_r].
Qed.

Lemma X11_witness :
  0 <= 1.2 <= 1.5
  /\ exists g f,
      targetGain (Fin 1.2) = Fin g /\ targetFreq (Fin 1.2) = Fin f
      /\ 0 <= g <= 0.8 /\ 200 <= f <= 2450
      /\ (1 < 1.2 -> 1700 < f).
Proof.
  assert (H : 0 <= 1.2 <= 1.5) by lra.
  split; [exact H |].
  exact (proj2 X11_audio_targets_ranges 1.2 H).
Defined.

(** X12. A larger intensity never gives a smaller gain target or a smaller
    frequency target; the gain target is 0.8 exactly from the intensity
    [0.8 / 1.5] on, and [1.5 * intensity] below it. *)
Theorem X12_audio_targets_monotone :
  forall i j : R,
    i <= j ->
    exists gi gj fi fj,
      targetGain (Fin i) = Fin gi /\ targetGain (Fin j) = Fin gj
      /\ targetFreq (Fin i) = Fin fi /\ targetFreq (Fin j) = Fin fj
      /\ gi <= gj /\ fi <= fj
      /\ (gi = 0.8 <-> 0.8 / 1.5 <= i)
      /\ (i <= 0.8 / 1.5 -> gi = i * 1.5).
Proof.
  intros i j Hij.
  exists (Rmin (i * 1.5) 0.8), (Rmin (j * 1.5) 0.8),
    (200 + i * 1500), (200 + j * 1500).
  repeat (split; [reflexivity |]).
  split.
  { apply Rmin_glb; [| apply Rmin_r].
    apply Rle_trans with (i * 1.5); [apply Rmin_l | lra]. }
  split; [lra |].
  split.
  - split; intros H.
    + destruct (Rle_dec (i * 1.5) 0.8) as [Hle | Hgt].
      * rewrite Rmin_left in H by exact Hle. lra.
      * lra.
    + apply Rmin_right. lra.
  - intros H. apply Rmin_left. lra.
Qed.

Lemma X12_witness :
  0.2 <= 0.9
  /\ exists gi gj fi fj,
      targetGain (Fin 0.2) = Fin gi /\ targetGain (Fin 0.9) = Fin gj
      /\ targetFreq (Fin 0.2) = Fin fi /\ targetFreq (Fin 0.9) = Fin fj
      /\ gi <= gj /\ fi <= fj
      /\ (gi = 0.8 <-> 0.8 / 1.5 <= 0.2)
      /\ (0.2 <= 0.8 / 1.5 -> gi = 0.2 * 1.5).
Proof.
  assert (H : 0.2 <= 0.9) by lra.
  split; [exact H |].
  exact (X12_audio_targets_monotone 0.2 0.9 H).
Defined.

Lemma updateWindAll_cons (c : number * number) (calls : list (number * number))
    (e : AudioEngine) :
  updateWindAll (c :: calls) e = updateWindAll calls (updateWind (fst c) (snd c) e).
Proof. reflexivity. Qed.

(** X13. On an engine whose context and nodes exist, a sequence of calls of
    [updateWind] only adds automation events: the gain and the frequency
    each hold one event per call, the latest first, before the events they
    held; their values, the context, the noise node and the initialized flag
    are untouched. *)
Theorem X13_updateWind_only_schedules :
  forall calls e c g f,
    ctx e = Some c -> gainNode e = Some g -> filterNode e = Some f ->
    exists g' f',
      gainNode (updateWindAll calls e) = Some g'
      /\ filterNode (updateWindAll calls e) = Some f'
      /\ events (gain g') = rev (map gainEvent calls) ++ events (gain g)
      /\ events (frequency f') = rev (map freqEvent calls) ++ events (frequency f)
      /\ value (gain g') = value (gain g)
      /\ value (frequency f') = value (frequency f)
      /\ gainOut g' = gainOut g /\ filterOut f' = filterOut f
      /\ ctx (updateWindAll calls e) = Some c
      /\ noiseNode (updateWindAll calls e) = noiseNode e
      /\ isInitialized (updateWindAll calls e) = isInitialized e.
Proof.
  induction calls as [| call calls IH]; intros e c g f Hc Hg Hf.
  - exists g, f. cbn. repeat split; assumption.
  - rewrite updateWindAll_cons.
    set (e1 := updateWind (fst call) (snd call) e).
    assert (He1 : e1 = {| ctx := ctx e;
                          noiseNode := noiseNode e;
                          gainNode :=
                            Some {| gain := setTargetAtTime
                                              (targetGain (snd call)) (fst call)
                                              (Fin 0.1) (gain g);
                                    gainOut := gainOut g |};
                          filterNode :=
                            Some {| type := type f;
                                    frequency := setTargetAtTime
                                                   (targetFreq (snd call))
                                                   (fst call) (Fin 0.2)
                                                   (frequency f);
                                    filterOut := filterOut f |};
                          isInitialized := isInitialized e |})
      by (unfold e1, updateWind; rewrite Hc, Hg, Hf; reflexivity).
    destruct (IH e1 c _ _ (eq_trans (f_equal ctx He1) Hc)
                (f_equal gainNode He1) (f_equal filterNode He1))
      as [g' [f' [Hg' [Hf' [Eg [Ef [Vg [Vf [Og [Of [Hc' [Hn' Hi']]]]]]]]]]]].
    exists g', f'.
    split; [exact Hg' |]. split; [exact Hf' |].
    split.
    { rewrite Eg. cbn [map rev gain setTargetAtTime events].
      rewrite <- app_assoc. reflexivity. }
    split.
    { rewrite Ef. cbn [map rev frequency setTargetAtTime events].
      rewrite <- app_assoc. reflexivity. }
    split; [rewrite Vg; reflexivity |].
    split; [rewrite Vf; reflexivity |].
    split; [rewrite Og; reflexivity |].
    split; [rewrite Of; reflexivity |].
    split; [exact Hc' |].
    split; [rewrite Hn', He1; reflexivity |].
    rewrite Hi', He1. reflexivity.
Qed.

Lemma X13_witness :
  exists e c g f,
    init quietHost audioEngine = Ok e
    /\ ctx e = Some c /\ gainNode e = Some g /\ filterNode e = Some f
    /\ exists g' f',
        gainNode (updateWindAll [(Fin 0, Fin 0.2); (Fin 1, Fin 0.9)] e) = Some g'
        /\ filterNode (updateWindAll [(Fin 0, Fin 0.2); (Fin 1, Fin 0.9)] e)
           = Some f'
        /\ events (gain g')
           = [gainEvent (Fin 1, Fin 0.9); gainEvent (Fin 0, Fin 0.2)].
Proof.
  do 4 eexists.
  split; [reflexivity |].
  split; [reflexivity |]. split; [reflexivity |]. split; [reflexivity |].
  match goal with
  | |- exists g' f', gainNode (updateWindAll ?calls ?e) = _ /\ _ =>
      destruct (X13_updateWind_only_schedules calls e _ _ _
                  eq_refl eq_refl eq_refl)
        as [g' [f' [Hg' [Hf' [Eg _]]]]]
  end.
  exists g', f'. split; [exact Hg' |]. split; [exact Hf' |]. exact Eg.
Defined.

(** X14. Stopping is safe and final: [stop] on an engine without context
    changes nothing, a second [stop] changes nothing more, and [resume] does
    not reopen a stopped engine.  After [stop], [init] builds the same engine
    as on a fresh one, so that nothing of the former session remains. *)
Theorem X14_stop_and_restart :
  (forall e, ctx e = None -> stop e = e)
  /\ (forall e, stop (stop e) = stop e)
  /\ (forall e, resume (stop e) = stop e)
  /\ (forall e h, ctx e <> None -> init h (stop e) = init h audioEngine).
Proof.
  split; [| split; [| split]].
  - intros e H. unfold stop. now rewrite H.
  - intros e. unfold stop. destruct (ctx e) as [c |] eqn:Hc; cbn [ctx].
    + reflexivity.
    + now rewrite Hc.
  - intros e. unfold stop. destruct (ctx e) as [c |] eqn:Hc.
    + reflexivity.
    + unfold resume. now rewrite Hc.
  - intros e h H. unfold stop.
    destruct (ctx e) as [c |]; [reflexivity | contradiction H; reflexivity].
Qed.

Lemma X14_witness :
  exists e,
    init quietHost audioEngine = Ok e
    /\ ctx e <> None
    /\ init quietHost (stop e) = init quietHost audioEngine.
Proof.
  eexists. split; [reflexivity |].
  split; [discriminate |].
  apply (proj2 (proj2 (proj2 X14_stop_and_restart))). discriminate.
Defined.

(** X15. [resume] changes nothing but the state of a suspended context,
    which becomes running; a second [resume] changes nothing.  After [init]
    and [resume] on a fresh engine the context is never suspended. *)
Theorem X15_resume :
  (forall e, resume (resume e) = resume e)
  /\ (forall e,
        noiseNode (resume e) = noiseNode e /\ gainNode (resume e) = gainNode e
        /\ filterNode (resume e) = filterNode e
        /\ isInitialized (resume e) = isInitialized e)
  /\ (forall h e,
        init h audioEngine = Ok e ->
        exists c c',
          newAudioContext h = Some c /\ ctx (resume e) = Some c'
          /\ sampleRate c' = sampleRate c
          /\ state c' = match state c with Suspended => Running | s => s end).
Proof.
  split; [| split].
  - intros e. unfold resume.
    destruct (ctx e) as [c |] eqn:Hc; [| now rewrite Hc].
    destruct (state c) eqn:Hs; cbn [ctx state]; try reflexivity;
      rewrite Hc, Hs; reflexivity.
  - intros e. unfold resume.
    destruct (ctx e) as [c |]; [| repeat split].
    destruct (state c); repeat split.
  - intros h e H. unfold init in H. cbn [isInitialized audioEngine] in H.
    destruct (newAudioContext h) as [c |]; [| discriminate H].
    injection H as <-. exists c. unfold resume; cbn [ctx].
    destruct (state c) eqn:Hs; eexists; (split; [reflexivity |]);
      cbn [ctx]; (split; [reflexivity |]); cbn [sampleRate state];
      split; try reflexivity; now rewrite Hs.
Qed.

Lemma X15_witness :
  exists e,
    init quietHost audioEngine = Ok e
    /\ exists c c',
        newAudioContext quietHost = Some c /\ ctx (resume e) = Some c'
        /\ sampleRate c' = sampleRate c
        /\ state c' = match state c with Suspended => Running | s => s end.
Proof.
  eexists. split; [reflexivity |].
  apply (proj2 (proj2 X15_resume) quietHost). reflexivity.
Defined.

(** X16. On an engine without context, as before the first [init] or after
    an [init] that threw, [resume], [stop] and any sequence of [updateWind]
    change nothing. *)
Theorem X16_nothing_happens_before_init :
  forall e,
    ctx e = None ->
    resume e = e /\ stop e = e /\ forall calls, updateWindAll calls e = e.
Proof.
  intros e H. split; [| split].
  - unfold resume. now rewrite H.
  - unfold stop. now rewrite H.
  - intros calls. induction calls as [| c calls IH]; [reflexivity |].
    rewrite updateWindAll_cons. unfold updateWind. rewrite H. exact IH.
Qed.

Lemma X16_witness :
  ctx audioEngine = None
  /\ resume audioEngine = audioEngine /\ stop audioEngine = audioEngine
  /\ forall calls, updateWindAll calls audioEngine = audioEngine.
Proof.
  split; [reflexivity |].
  exact (X16_nothing_happens_before_init audioEngine eq_refl).
Defined.

End AudioSessions.

(** ** The noise buffer as a signal *)

Section NoiseSignal.

Import AudioEngine.

Lemma noiseStep_formula (random : nat -> number) (L i : nat) (s : Noise)
    (r u : R) :
  length (output s) = L -> (i < L)%nat ->
  lastOut s = Fin r -> random i = Fin u ->
  noiseStep random i s
  = {| output := store i (Fin ((r + 0.02 * (u * 2 - 1)) / 1.02 * 3.5)) (output s);
       lastOut := Fin ((r + 0.02 * (u * 2 - 1)) / 1.02) |}.
Proof.
  intros HL Hi Hr Hu. unfold noiseStep. rewrite Hr, Hu.
  js_finite. rewrite div_finite by lra.
  rewrite load_store_same by lia.
  rewrite store_store. js_finite. reflexivity.
Qed.

(** X17. The noise is a slowly varying signal: when every draw is in
    [[0, 1]], two consecutive samples of the buffer are finite numbers that
    differ by at most [0.14 / 1.02], less than a twenty-fifth of the range
    [[-3.5, 3.5]] of the samples. *)
Theorem X17_noise_varies_slowly :
  forall random n,
    (forall i, (i < n)%nat -> exists u, random i = Fin u /\ 0 <= u <= 1) ->
    forall i, (S i < n)%nat ->
      exists a b,
        load i (output (noiseBuffer random n)) = Fin a
        /\ load (S i) (output (noiseBuffer random n)) = Fin b
        /\ Rabs (b - a) <= 0.14 / 1.02.
Proof.
  intros random n Hd i Hi.
  destruct (noiseBuffer_bounded random n Hd) as [_ Hall].
  destruct (Hall i ltac:(lia)) as [r [Hr [Hrb [Hload _]]]].
  destruct (Hall (S i) Hi) as [r' [Hr' [_ [Hload' _]]]].
  exists (r * 3.5), (r' * 3.5).
  split; [exact Hload |]. split; [exact Hload' |].
  destruct (Hd (S i) Hi) as [u [Hu Hub]].
  assert (Hinv : noise_inv n (noiseLoop random 0 (S i) (blank n))).
  { apply noiseLoop_inv; [apply blank_inv | lia |].
    intros j Hj. apply Hd. lia. }
  rewrite noiseLoop_snoc in Hr'. cbn [Nat.add] in Hr'.
  rewrite (noiseStep_formula random n (S i) _ r u (proj1 Hinv) Hi Hr Hu) in Hr'.
  cbn [lastOut] in Hr'. injection Hr' as <-.
  apply Rabs_le. split; lra.
Qed.

Lemma X17_witness :
  (forall i, (i < 4)%nat ->
             exists u, (fun _ : nat => Fin 0.5) i = Fin u /\ 0 <= u <= 1)
  /\ exists a b,
      load 1 (output (noiseBuffer (fun _ => Fin 0.5) 4)) = Fin a
      /\ load 2 (output (noiseBuffer (fun _ => Fin 0.5) 4)) = Fin b
      /\ Rabs (b - a) <= 0.14 / 1.02.
Proof.
  assert (H : forall i, (i < 4)%nat ->
                exists u, (fun _ : nat => Fin 0.5) i = Fin u /\ 0 <= u <= 1)
    by (intros i _; exists 0.5; split; [reflexivity | lra]).
  split; [exact H |].
  apply (X17_noise_varies_slowly (fun _ => Fin 0.5) 4%nat H 1%nat). lia.
Defined.

End NoiseSignal.

(** ** The shape of the particle field *)

Section GalaxyShape.

Import GalaxyScene.

Lemma pow_unit (u : R) (n : nat) : 0 <= u <= 1 -> 0 <= u ^ n <= 1.
Proof.
  intros H. split; [apply pow_le; lra |].
  rewrite <- (pow1 n). apply pow_incr. lra.
Qed.

Lemma Rabs_le_bounds (a b : R) : Rabs a <= b -> - b <= a <= b.
Proof.
  intros H. pose proof (Rle_abs a) as H1. pose proof (Rle_abs (- a)) as H2.
  rewrite Rabs_Ropp in H2. lra.
Qed.

Lemma abs_offsetR_bound (power : nat) (rn r u w : R) :
  0 <= u <= 1 -> 0 <= rn -> 0 <= r ->
  Rabs (offsetR power rn r u w) <= rn * r.
Proof.
  intros Hu Hrn Hr. rewrite abs_offsetR by lra.
  rewrite Rabs_pos_eq by (apply Rmult_le_pos; assumption).
  pose proof (pow_unit u power Hu) as Hp.
  assert (H : 0 <= rn * r) by (apply Rmult_le_pos; assumption).
  nra.
Qed.

(** X19. With finite parameters, a randomness and a radius that are not
    negative, at least one branch and draws in [[0, 1)], each particle is at
    a finite position [(x, y, z)]: its radius [r] is in [[0, radius]], the
    height [y] is the offset alone, at most [randomness * r] in absolute
    value, and [x] and [z] are at most [(1 + randomness) * r] in absolute
    value. *)
Theorem X19_particles_in_a_box :
  forall (p : Parameters) (rn rd sp : R) (draws : nat -> R) (power i : nat),
    randomness p = Fin rn -> radius p = Fin rd -> spin p = Fin sp ->
    branches p <> 0%nat ->
    0 <= rn -> 0 <= rd ->
    (forall k, 0 <= draws k < 1) ->
    let q := particle (withPower power p) (finiteSource draws) i in
    let r := draws (7 * i)%nat * rd in
    exists x y z,
      position q = (Fin x, Fin y, Fin z)
      /\ 0 <= r <= rd
      /\ randomY q = Fin y
      /\ Rabs y <= rn * r
      /\ Rabs x <= (1 + rn) * r
      /\ Rabs z <= (1 + rn) * r.
Proof.
  intros p rn rd sp draws power i Hrn Hrd Hsp Hb Hrn0 Hrd0 Hdraws q r.
  pose proof (offset_particle p rn rd draws Hrn Hrd power AxisX i) as HX.
  pose proof (offset_particle p rn rd draws Hrn Hrd power AxisY i) as HY.
  pose proof (offset_particle p rn rd draws Hrn Hrd power AxisZ i) as HZ.
  cbn [offset] in HX, HY, HZ. fold q in HX, HY, HZ. fold r in HX, HY, HZ.
  assert (Hr : 0 <= r <= rd).
  { unfold r. pose proof (Hdraws (7 * i)%nat). split; nra. }
  assert (Hoff : forall a,
             Rabs (offsetR power rn r (draws (magnitudeDraw a i))
                           (draws (S (magnitudeDraw a i)))) <= rn * r).
  { intros a. apply abs_offsetR_bound; try lra.
    pose proof (Hdraws (magnitudeDraw a i)). lra. }
  destruct (branches p) as [| b] eqn:Eb; [contradiction Hb; reflexivity |].
  set (theta := INR (i mod S b) / INR (S b) * PI * 2 + r * sp).
  assert (Hpos : position q
                 = (Fin (Rtrigo_def.cos theta * r
                         + offsetR power rn r (draws (magnitudeDraw AxisX i))
                                   (draws (S (magnitudeDraw AxisX i)))),
                    Fin (offsetR power rn r (draws (magnitudeDraw AxisY i))
                                 (draws (S (magnitudeDraw AxisY i)))),
                    Fin (Rtrigo_def.sin theta * r
                         + offsetR power rn r (draws (magnitudeDraw AxisZ i))
                                   (draws (S (magnitudeDraw AxisZ i)))))).
  { cbn [magnitudeDraw]. unfold q, particle.
    cbn [position randomX randomY randomZ].
    change (radius (withPower power p)) with (radius p).
    change (spin (withPower power p)) with (spin p).
    change (branches (withPower power p)) with (branches p).
    change (finiteSource draws (7 * i)%nat) with (Fin (draws (7 * i)%nat)).
    rewrite Hrd, Hsp, Eb. cbn [rem]. js_finite. fold r.
    rewrite div_finite by (apply not_0_INR; discriminate).
    js_finite. fold theta.
    rewrite (randomOffset_finite p rn draws Hrn power (7 * i + 1) r).
    rewrite (randomOffset_finite p rn draws Hrn power (7 * i + 3) r).
    rewrite (randomOffset_finite p rn draws Hrn power (7 * i + 5) r).
    cbn [Num.cos Num.sin]. js_finite. reflexivity. }
  do 3 eexists. split; [exact Hpos |].
  split; [exact Hr |]. split; [exact HY |].
  split; [apply Hoff |].
  pose proof (COS_bound theta) as Hc. pose proof (SIN_bound theta) as Hs.
  pose proof (Hoff AxisX) as HoX. pose proof (Hoff AxisZ) as HoZ.
  apply Rabs_le_bounds in HoX. apply Rabs_le_bounds in HoZ.
  split; apply Rabs_le; split; nra.
Qed.

Lemma X19_witness :
  randomness parameters = Fin 0.2 /\ radius parameters = Fin 5
  /\ spin parameters = Fin 1 /\ branches parameters <> 0%nat
  /\ 0 <= 0.2 /\ 0 <= 5 /\ (forall k : nat, 0 <= (fun _ : nat => 0.5) k < 1)
  /\ exists x y z,
      position (particle (withPower 3 parameters)
                         (finiteSource (fun _ => 0.5)) 4)
      = (Fin x, Fin y, Fin z)
      /\ 0 <= 0.5 * 5 <= 5
      /\ randomY (particle (withPower 3 parameters)
                           (finiteSource (fun _ => 0.5)) 4) = Fin y
      /\ Rabs y <= 0.2 * (0.5 * 5)
      /\ Rabs x <= (1 + 0.2) * (0.5 * 5)
      /\ Rabs z <= (1 + 0.2) * (0.5 * 5).
Proof.
  assert (H : forall k : nat, 0 <= (fun _ : nat => 0.5) k < 1)
    by (intros k; lra).
  assert (Hb : branches parameters <> 0%nat) by discriminate.
  split; [reflexivity |]. split; [reflexivity |]. split; [reflexivity |].
  split; [exact Hb |]. split; [lra |]. split; [lra |]. split; [exact H |].
  exact (X19_particles_in_a_box parameters 0.2 5 1 (fun _ => 0.5) 3 4
           eq_refl eq_refl eq_refl Hb ltac:(lra) ltac:(lra) H).
Defined.

End GalaxyShape.

(** ** The positions array *)

Section PositionsArray.

Import GalaxyScene GalaxyArray.

Variables (p : Parameters) (random : nat -> number).








End PositionsArray.


(** ** The rotation of the field *)

Section FieldRotation.

Import FieldAnimator AppSession.

Variable lerp : number -> number -> number -> number.
Variable vlerp :
  number * number * number -> number * number * number -> number
  -> number * number * number.

Lemma sumR_nonneg (l : list R) : Forall (fun d => 0 <= d) l -> 0 <= sumR l.
Proof.
  induction l as [| d l IH]; intros H; [apply Rle_refl |].
  inversion H as [| d' l' Hd Hl]; subst.
  cbn [sumR fold_right]. fold (sumR l). specialize (IH Hl). lra.
Qed.

Lemma frames_None (velocity : number) (deltas : list number) :
  frames lerp vlerp velocity deltas None = None.
Proof.
  induction deltas as [| d ds IH]; [reflexivity | exact IH].
Qed.

Lemma frames_rotationY (v : R) (ds : list R) :
  forall points y0,
    rotationY points = Fin y0 ->
    exists points',
      frames lerp vlerp (Fin v) (map Fin ds) (Some points) = Some points'
      /\ rotationY points' = Fin (y0 + (0.05 + 2 * v) * sumR ds).
Proof.
  induction ds as [| d ds IH]; intros points y0 Hy.
  - exists points. split; [reflexivity |]. rewrite Hy. cbn. f_equal. ring.
  - cbn [map frames fold_left useFrame].
    match goal with
    | |- context [fold_left _ _ (Some ?pts)] =>
        destruct (IH pts (y0 + (0.05 * d + v * 2 * d))) as [points' [Hf Hr]]
    end.
    + cbn [rotationY]. rewrite Hy. reflexivity.
    + exists points'. split; [exact Hf |]. rewrite Hr.
      cbn [sumR fold_right]. fold (sumR ds). f_equal. ring.
Qed.

(** X20. The rotation about the vertical axis depends on the elapsed time
    only, not on how it is cut into frames: after frames of finite durations
    under a constant finite velocity [v], [rotation.y] has grown by
    [(0.05 + 2 * v)] times the sum of the durations, so that it never
    decreases when the velocity and the durations are not negative.
    Without a mounted object the callback does nothing. *)
Theorem X20_rotation_follows_elapsed_time :
  (forall (v : R) (ds : list R) points y0,
      rotationY points = Fin y0 ->
      exists points',
        frames lerp vlerp (Fin v) (map Fin ds) (Some points) = Some points'
        /\ rotationY points' = Fin (y0 + (0.05 + 2 * v) * sumR ds)
        /\ (0 <= v -> Forall (fun d => 0 <= d) ds ->
            y0 <= y0 + (0.05 + 2 * v) * sumR ds))
  /\ (forall velocity deltas, frames lerp vlerp velocity deltas None = None).
Proof.
  split; [| exact frames_None].
  intros v ds points y0 Hy.
  destruct (frames_rotationY v ds points y0 Hy) as [points' [Hf Hr]].
  exists points'. split; [exact Hf |]. split; [exact Hr |].
  intros Hv Hds.
  pose proof (sumR_nonneg ds Hds) as Hsum.
  nra.
Qed.

End FieldRotation.

Lemma X20_witness :
  FieldAnimator.rotationY {| FieldAnimator.rotationX := Fin 0;
               FieldAnimator.rotationY := Fin 1;
               FieldAnimator.scale := (Fin 1, Fin 1, Fin 1) |} = Fin 1
  /\ exists points',
      FieldAnimator.frames (fun a _ _ => a) (fun a _ _ => a) (Fin 0.5)
        (map Fin [0.016; 0.017])
        (Some {| FieldAnimator.rotationX := Fin 0;
                 FieldAnimator.rotationY := Fin 1;
                 FieldAnimator.scale := (Fin 1, Fin 1, Fin 1) |})
      = Some points'
      /\ FieldAnimator.rotationY points'
         = Fin (1 + (0.05 + 2 * 0.5) * AppSession.sumR [0.016; 0.017]).
Proof.
  split; [reflexivity |].
  destruct (proj1 (X20_rotation_follows_elapsed_time
                     (fun a _ _ => a) (fun a _ _ => a))
              0.5 [0.016; 0.017]
              {| FieldAnimator.rotationX := Fin 0;
                 FieldAnimator.rotationY := Fin 1;
                 FieldAnimator.scale := (Fin 1, Fin 1, Fin 1) |} 1 eq_refl)
    as [points' [Hf [Hr _]]].
  exists points'. split; [exact Hf | exact Hr].
Defined.

(** ** Starting and ending a session *)

Section Sessions.

Import App GeminiService AppSession.



(** X22. A start that fails shows one alert and leaves the statistics and
    the engine as they were.  When the camera is refused the state of the
    application is unchanged, but when the camera is granted and the audio
    context cannot be built the application is [ACTIVE] all the same, with
    the statistics of the session before. *)
Theorem X22_failed_start :
  (forall h now a,
      let a' := handleStart false h now a in
      appState a' = appState a /\ sessionStats a' = sessionStats a
      /\ engine a' = engine a /\ alerts a' = S (alerts a))
  /\ (forall h now a,
        AudioEngine.newAudioContext h = None ->
        AudioEngine.isInitialized (engine a) = false ->
        let a' := handleStart true h now a in
        appState a' = ACTIVE /\ sessionStats a' = sessionStats a
        /\ engine a' = engine a /\ alerts a' = S (alerts a)).
Proof.
  split.
  - intros h now a a'. repeat split.
  - intros h now a Hh Ha a'. subst a'. unfold handleStart, AudioEngine.init.
    rewrite Ha, Hh. repeat split.
Qed.

Lemma X22_witness :
  AudioEngine.newAudioContext
    {| AudioEngine.newAudioContext := None;
       AudioEngine.random := fun _ => Fin 0.5 |} = None
  /\ AudioEngine.isInitialized (engine loaded) = false
  /\ appState (handleStart true
                 {| AudioEngine.newAudioContext := None;
                    AudioEngine.random := fun _ => Fin 0.5 |} (Fin 0) loaded)
     = ACTIVE.
Proof.
  split; [reflexivity |]. split; [reflexivity |].
  exact (proj1 (proj2 X22_failed_start
                  {| AudioEngine.newAudioContext := None;
                     AudioEngine.random := fun _ => Fin 0.5 |} (Fin 0) loaded
                  eq_refl eq_refl)).
Defined.

End Sessions.

(** ** After the hand is lost *)

Section Decay.

Import App.

Lemma pow_09_33 : 0.9 ^ 33 < 0.0332.
Proof. simpl. lra. Qed.

Lemma pow_09_from_33 (n : nat) : (33 <= n)%nat -> 0.9 ^ n < 0.0332.
Proof.
  intros H. replace n with (33 + (n - 33))%nat by lia.
  rewrite pow_add.
  pose proof pow_09_33 as H33.
  pose proof (pow_09_pos 33) as Hpos.
  pose proof (pow_unit 0.9 (n - 33) ltac:(lra)) as Hk.
  nra.
Qed.

(** X24. Once the hand is lost the velocity is 0, and from any smoothed
    velocity between 0 and 1.5 the smoothed velocity is below the threshold
    0.05 of the statistics after 33 frames and for ever after: from then on
    the statistics no longer change. *)
Theorem X24_recording_stops_after_hand_lost :
  forall (s : R) (n : nat) (st : SessionStats),
    0 <= s <= 1.5 -> (33 <= n)%nat ->
    exists r,
      smoothLoop n (Fin 0) (Fin s) = Fin r
      /\ 0 <= r < 0.05
      /\ statsEffect ACTIVE (Fin r) st = st.
Proof.
  intros s n st Hs Hn.
  pose proof (pow_09_from_33 n Hn) as Hp.
  pose proof (pow_09_pos n) as Hpos.
  assert (Hr : 0 <= 0 + (s - 0) * 0.9 ^ n < 0.05) by (split; nra).
  exists (0 + (s - 0) * 0.9 ^ n).
  split; [apply smoothLoop_finite |]. split; [exact Hr |].
  unfold statsEffect; cbn [AppState_eqb].
  apply updateStats_below. apply gt_finite_false. lra.
Qed.

Lemma X24_witness :
  0 <= 1.5 <= 1.5 /\ (33 <= 40)%nat
  /\ exists r,
      smoothLoop 40 (Fin 0) (Fin 1.5) = Fin r
      /\ 0 <= r < 0.05
      /\ statsEffect ACTIVE (Fin r) AppSession.exampleStats
         = AppSession.exampleStats.
Proof.
  assert (H0 : 0 <= 1.5 <= 1.5) by lra.
  assert (H1 : (33 <= 40)%nat) by lia.
  split; [exact H0 |]. split; [exact H1 |].
  exact (X24_recording_stops_after_hand_lost 1.5 40 AppSession.exampleStats
           H0 H1).
Defined.

End Decay.
